(** * The enumeration solver of PPOPT: [ppopt/mp_solvers/mpmiqp_enumeration.py]

    [solve_mpmiqp_enumeration] enumerates the feasible binary combinations of
    a mixed-integer multiparametric program, solves one continuous
    sub-problem per combination on a worker pool, annotates the critical
    regions that come back and decides whether the 1-D overlap reduction may
    be applied.

    The function is embedded in a state-and-exception monad.  The state holds
    the program object the caller passed, the heap of critical-region objects
    of the calling process and the trace of the external calls and attribute
    assignments the function performs.  The collaborators that live in other
    modules (the search tree, the substitution, the continuous solver, the
    worker pool, the 1-D reducer) and the two numpy calls of the bilinear
    check are variables of the section; the pool comes with the contract of
    an order-preserving parallel map, numpy with the closeness to zero of the
    sum over an all-zero block. *)

From Stdlib Require Import ZArith QArith Qabs.
From stdpp Require Import base list.

Local Open Scope Z_scope.
Local Open Scope nat_scope.

(** ** Exceptions *)

(** [IndexError] is what Python raises on an out-of-range subscript; every
    other exception is raised by a collaborator and is identified by a code. *)
Inductive exn : Type :=
  | IndexError
  | Raised (code : nat).

Definition result (A : Type) : Type := (exn + A)%type.

(** List comprehension over a fallible body: the first failure, in list
    order, ends the comprehension. *)
Fixpoint try_map {A B : Type} (f : A -> result B) (xs : list A) : result (list B) :=
  match xs with
  | [] => inr []
  | x :: rest =>
      match f x with
      | inl e => inl e
      | inr y =>
          match try_map f rest with
          | inl e => inl e
          | inr ys => inr (y :: ys)
          end
      end
  end.

(** ** Numeric arrays

    A numpy matrix is a list of rows, indexed from 0.  An entry is the
    rational value of the stored number; non-finite entries are outside the
    model.  What numpy computes from the entries, in the arithmetic of the
    array's element type, is left to the library (see the collaborators). *)
Definition matrix : Type := list (list Q).

(** [m[rows, :]]: selection of rows by position. *)
Definition select_rows (m : matrix) (rows : list nat) : result matrix :=
  try_map (fun i => match m !! i with
                    | Some r => inr r
                    | None => inl IndexError
                    end) rows.

(** ** Data model *)

(** Modelled from the spec: the class [MPMILP_Program] of
    [ppopt/mpmilp_program.py] is absent; a program exposes the objective
    matrix [H], the index lists [binary_indices] and [cont_indices], the
    parameter dimension [num_t()], and an optional quadratic-term marker.
    [prog_Q] is the attribute named [Q]: [None] when the object has no such
    attribute ([hasattr(program, 'Q')] is false).  [num_x] is the number of
    variables. *)
Record MPMILP_Program : Type := {
  H : matrix;
  binary_indices : list nat;
  cont_indices : list nat;
  num_t : nat;
  num_x : nat;
  prog_Q : option matrix
}.

(** Modelled from the spec: the nodes of [mitree.py] are absent; each full
    leaf exposes a [fixed_bins] assignment, one value per binary variable. *)
Record MITreeNode : Type := { fixed_bins : list Z }.

(** Addresses of critical-region objects in the heap. *)
Abbreviation loc := nat (only parsing).

(** The three attributes the solver assigns on a region. *)
Inductive attr : Type := Y_fixation | Y_indices | X_indices.

(** An attribute together with the value assigned to it. *)
Inductive attr_value : Type :=
  | To_y_fixation (fb : list Z)
  | To_y_indices (ix : list nat)
  | To_x_indices (ix : list nat).

Definition attr_of (v : attr_value) : attr :=
  match v with
  | To_y_fixation _ => Y_fixation
  | To_y_indices _ => Y_indices
  | To_x_indices _ => X_indices
  end.

(** External calls and attribute assignments, in program order. *)
Inductive event : Type :=
  | EvNumCpuCores
  | EvMITree
  | EvPool (n : Z)
  | EvMap (tasks : nat)
  | EvSetAttr (l : loc) (a : attr)
  | EvReduce.

Definition is_setattr (e : event) : bool :=
  match e with EvSetAttr _ _ => true | _ => false end.

Definition is_num_cpu_cores (e : event) : bool :=
  match e with EvNumCpuCores => true | _ => false end.

Definition is_pool (e : event) : bool :=
  match e with EvPool _ => true | _ => false end.

(** Modelled from the spec: the class [Solution] of [ppopt/solution.py] is
    absent; [Solution(program, critical_regions, is_overlapping)] holds a
    reference to the program, a sequence of critical regions and the flag
    stating whether the regions may still overlap. *)
Record Solution (P R : Type) : Type := {
  program : P;
  critical_regions : list R;
  is_overlapping : bool
}.
Arguments Build_Solution {P R} _ _ _.
Arguments program {P R} _.
Arguments critical_regions {P R} _.
Arguments is_overlapping {P R} _.

Section Enumeration.

(** The polyhedron and the affine policy of a critical region, the continuous
    program obtained by substitution, the choice of continuous algorithm, the
    search tree and the worker pool are opaque to the solver. *)
Variables (Body ContProgram Algorithm Tree PoolT : Type).

(** Modelled from the spec: the class [CriticalRegion] is absent; a critical
    region is what the continuous solver produced, a polyhedron with its
    affine policy, and the three attributes the solver attaches ([None]
    until assigned). *)
Record CriticalRegion : Type := {
  body : Body;
  y_fixation : option (list Z);
  y_indices : option (list nat);
  x_indices : option (list nat)
}.

(** The effect of an attribute assignment on the region it targets. *)
Definition set_attr (v : attr_value) (r : CriticalRegion) : CriticalRegion :=
  match v with
  | To_y_fixation fb => {| body := body r; y_fixation := Some fb;
                           y_indices := y_indices r; x_indices := x_indices r |}
  | To_y_indices ix => {| body := body r; y_fixation := y_fixation r;
                          y_indices := Some ix; x_indices := x_indices r |}
  | To_x_indices ix => {| body := body r; y_fixation := y_fixation r;
                          y_indices := y_indices r; x_indices := Some ix |}
  end.

(** ** State and monad *)

Record State : Type := {
  st_program : MPMILP_Program;
  st_heap : list CriticalRegion;
  st_trace : list event
}.

Definition M (A : Type) : Type := State -> result A * State.

Definition ret {A : Type} (a : A) : M A := fun s => (inr a, s).

Definition raise {A : Type} (e : exn) : M A := fun s => (inl e, s).

Definition bind {A B : Type} (c : M A) (k : A -> M B) : M B :=
  fun s => match c s with
           | (inl e, s') => (inl e, s')
           | (inr a, s') => k a s'
           end.

Notation "'let*' x ':=' c 'in' k" := (bind c (fun x => k))
  (at level 10, x pattern, c at level 100, k at level 200).

(** A collaborator that runs without access to the state. *)
Definition call {A : Type} (r : result A) : M A := fun s => (r, s).

Definition emit (e : event) : M unit :=
  fun s => (inr tt, {| st_program := st_program s; st_heap := st_heap s;
                       st_trace := st_trace s ++ [e] |}).

(** Attribute read on the program object. *)
Definition program_attr {A : Type} (f : MPMILP_Program -> A) : M A :=
  fun s => (inr (f (st_program s)), s).

(** Subscript on a Python list. *)
Definition subscript {A : Type} (l : list A) (i : nat) : M A :=
  match l !! i with
  | Some x => ret x
  | None => raise IndexError
  end.

(** [for x in xs: body(x)] *)
Fixpoint for_each {A : Type} (xs : list A) (body : A -> M unit) : M unit :=
  match xs with
  | [] => ret tt
  | x :: rest => let* _ := body x in for_each rest body
  end.

(** List comprehension whose body runs in the monad. *)
Fixpoint comprehension {A B : Type} (f : A -> M B) (xs : list A) : M (list B) :=
  match xs with
  | [] => ret []
  | x :: rest =>
      let* y := f x in
      let* ys := comprehension f rest in
      ret (y :: ys)
  end.

(** ** Collaborators *)

(** [num_cpu_cores()] of [ppopt/utils/general_utils.py]: the core count the
    platform reports. *)
Variable num_cpu_cores : Z.

(** [MITree(program, depth)] and [tree.get_full_leafs()] of [mitree.py]. *)
Variable MITree : MPMILP_Program -> nat -> result Tree.
Variable get_full_leafs : Tree -> result (list MITreeNode).

(** [program.generate_substituted_problem(fixed_bins)]. *)
Variable generate_substituted_problem :
  MPMILP_Program -> list Z -> result ContProgram.

(** [solve_mpqp(problem, algorithm)] of [solve_mpqp.py].  It runs in a worker
    process: it has no access to the objects of the calling process and its
    result reaches the caller as a copy. *)
Variable solve_mpqp :
  ContProgram -> Algorithm -> result (Solution ContProgram CriticalRegion).

(** [Pool(nodes)] and [pool.map(f, xs)] of pathos. *)
Variable Pool : Z -> result PoolT.
Variable pool_map :
  PoolT -> (ContProgram -> result (Solution ContProgram CriticalRegion)) ->
  list ContProgram -> result (list (Solution ContProgram CriticalRegion)).

(** [reduce_overlapping_critical_regions_1d(program, regions)] of
    [region_overlap_utils.py].  It runs in the calling process on the region
    objects themselves, so it is a transformer of the heap; it reads the
    program. *)
Variable reduce_overlapping_critical_regions_1d :
  MPMILP_Program -> list loc -> list CriticalRegion ->
  result (list loc * bool) * list CriticalRegion.

(** [numpy.sum(numpy.abs(m))] and [numpy.isclose(a, b)] of numpy, in the
    arithmetic of the element type of the array: rounding, wrap-around and
    the default tolerances are the library's.  [Scalar] is the type of the
    number [numpy.sum] returns. *)
Variable Scalar : Type.
Variable numpy_sum_abs : matrix -> Scalar.
Variable numpy_isclose : Scalar -> Q -> bool.

(** The contract of [pool.map]: an order-preserving parallel map.  When every
    task returns, the results come back in the order of the inputs; when a
    task raises, the map raises an exception that one of the tasks raised. *)
Hypothesis pool_map_ordered : forall pool f xs,
  match try_map f xs with
  | inr ys => pool_map pool f xs = inr ys
  | inl _ => exists e x, x ∈ xs /\ f x = inl e /\ pool_map pool f xs = inl e
  end.

(** ** The steps of the solver *)

(** [num_cores = num_cpu_cores()] *)
Definition call_num_cpu_cores : M Z :=
  let* _ := emit EvNumCpuCores in ret num_cpu_cores.

(** [MITree(program, depth=depth)] *)
Definition new_MITree (depth : nat) : M Tree :=
  let* _ := emit EvMITree in
  let* p := program_attr id in
  call (MITree p depth).

(** [Pool(num_cores)] *)
Definition new_Pool (nodes : Z) : M PoolT :=
  let* _ := emit (EvPool nodes) in call (Pool nodes).

(** A solution that arrives from a worker is a fresh copy: its regions become
    new objects of the calling process. *)
Definition receive (sol : Solution ContProgram CriticalRegion)
  : M (Solution ContProgram loc) :=
  fun s =>
    (inr {| program := program sol;
            critical_regions :=
              seq (length (st_heap s)) (length (critical_regions sol));
            is_overlapping := is_overlapping sol |},
     {| st_program := st_program s;
        st_heap := st_heap s ++ critical_regions sol;
        st_trace := st_trace s |}).

(** [list(pool.map(f, problems))] *)
Definition list_pool_map (pool : PoolT)
    (f : ContProgram -> result (Solution ContProgram CriticalRegion))
    (problems : list ContProgram) : M (list (Solution ContProgram loc)) :=
  let* _ := emit (EvMap (length problems)) in
  let* sols := call (pool_map pool f problems) in
  comprehension receive sols.

(** [region.attr = value]: assignment of one of the three attributes on the
    region object at [l]. *)
Definition setattr (l : loc) (v : attr_value) : M unit :=
  fun s =>
    (inr tt,
     {| st_program := st_program s;
        st_heap := alter (set_attr v) l (st_heap s);
        st_trace := st_trace s ++ [EvSetAttr l (attr_of v)] |}).

(** The body of the inner loop (lines 52-54).  In an assignment Python
    evaluates the right-hand side before the target. *)
Definition annotate_region (feasible_combinations : list (list Z)) (index : nat)
    (sol : Solution ContProgram loc) (i : nat) : M unit :=
  let* fb := subscript feasible_combinations index in
  let* r := subscript (critical_regions sol) i in
  let* _ := setattr r (To_y_fixation fb) in
  let* bi := program_attr binary_indices in
  let* r := subscript (critical_regions sol) i in
  let* _ := setattr r (To_y_indices bi) in
  let* ci := program_attr cont_indices in
  let* r := subscript (critical_regions sol) i in
  setattr r (To_x_indices ci).

(** The loop [for index, sol in enumerate(sols)] (lines 49-55);
    [region_list] is the accumulator. *)
Fixpoint annotate_loop (feasible_combinations : list (list Z)) (index : nat)
    (sols : list (Solution ContProgram loc)) (region_list : list (list loc))
  : M (list (list loc)) :=
  match sols with
  | [] => ret region_list
  | sol :: rest =>
      let* _ := for_each (seq 0 (length (critical_regions sol)))
                  (annotate_region feasible_combinations index sol) in
      annotate_loop feasible_combinations (S index) rest
        (region_list ++ [critical_regions sol])
  end.

(** The call of the 1-D reducer. *)
Definition reduce (p : MPMILP_Program) (regions : list loc) : M (list loc * bool) :=
  fun s =>
    let '(r, h) := reduce_overlapping_critical_regions_1d p regions (st_heap s) in
    (r, {| st_program := st_program s; st_heap := h;
           st_trace := st_trace s ++ [EvReduce] |}).

(** [hasattr(program, 'Q')] *)
Definition hasattr_Q (p : MPMILP_Program) : bool :=
  match prog_Q p with Some _ => true | None => false end.

(** Lines 59-69: the bilinear check and the choice between the flagged
    result and the reduced one. *)
Definition classify (reduce_overlap : bool) (collected_regions : list loc)
  : M (Solution MPMILP_Program loc) :=
  let* h := program_attr H in
  let* ci := program_attr cont_indices in
  let* block := call (select_rows h ci) in
  let sum_abs_H := numpy_sum_abs block in
  let is_bilinear_terms := negb (numpy_isclose sum_abs_H 0%Q) in
  let* nt := program_attr num_t in
  let* has_Q := program_attr hasattr_Q in
  if (1 <? nt) || has_Q || negb reduce_overlap || is_bilinear_terms then
    let* p := program_attr id in
    ret (Build_Solution p collected_regions true)
  else
    let* p := program_attr id in
    let* reduced := reduce p collected_regions in
    let collected_regions := fst reduced in
    let overlaps_remaining := snd reduced in
    let* p := program_attr id in
    ret (Build_Solution p collected_regions overlaps_remaining).

(** [solve_mpmiqp_enumeration(program, num_cores, cont_algorithm,
    reduce_overlap)]; [program] is the object held in the state. *)
Definition solve_mpmiqp_enumeration (num_cores : Z) (cont_algorithm : Algorithm)
    (reduce_overlap : bool) : M (Solution MPMILP_Program loc) :=
  let* num_cores :=
    (if (num_cores =? -1)%Z then call_num_cpu_cores else ret num_cores) in
  let* tree := new_MITree 0 in
  let* leafs := call (get_full_leafs tree) in
  let feasible_combinations := map fixed_bins leafs in
  let* problems :=
    comprehension
      (fun fixed_bins =>
         let* p := program_attr id in
         call (generate_substituted_problem p fixed_bins))
      feasible_combinations in
  let* pool := new_Pool num_cores in
  let* sols := list_pool_map pool (fun x => solve_mpqp x cont_algorithm) problems in
  let* region_list := annotate_loop feasible_combinations 0 sols [] in
  let collected_regions := concat region_list in
  classify reduce_overlap collected_regions.

(** ** What the annotation leaves behind *)

(** A region after the three assignments of lines 52-54. *)
Definition annotated (p : MPMILP_Program) (fb : list Z) (r : CriticalRegion)
  : CriticalRegion :=
  {| body := body r; y_fixation := Some fb;
     y_indices := Some (binary_indices p);
     x_indices := Some (cont_indices p) |}.

(** The regions of all sub-solutions, each annotated with the combination at
    the position of its sub-solution: sub-problem-major, region-minor. *)
Definition annotate_all (p : MPMILP_Program) (fcs : list (list Z))
    (sols : list (Solution ContProgram CriticalRegion)) : list CriticalRegion :=
  concat (zip_with (fun fb sol => map (annotated p fb) (critical_regions sol))
            fcs sols).

(** The three assignments on one region object. *)
Definition writes (l : loc) : list event :=
  [EvSetAttr l Y_fixation; EvSetAttr l Y_indices; EvSetAttr l X_indices].

(** The sub-solutions as the calling process holds them once their regions
    are objects starting at address [base]. *)
Fixpoint locate (base : nat) (sols : list (Solution ContProgram CriticalRegion))
  : list (Solution ContProgram loc) :=
  match sols with
  | [] => []
  | sol :: rest =>
      {| program := program sol;
         critical_regions := seq base (length (critical_regions sol));
         is_overlapping := is_overlapping sol |}
      :: locate (base + length (critical_regions sol)) rest
  end.

(** The worker count handed to the pool (lines 31-32). *)
Definition worker_count (num_cores : Z) : Z :=
  if (num_cores =? -1)%Z then num_cpu_cores else num_cores.

(** The events up to and including the dispatch. *)
Definition dispatch_events (num_cores : Z) (tasks : nat) : list event :=
  (if (num_cores =? -1)%Z then [EvNumCpuCores] else [])
  ++ [EvMITree; EvPool (worker_count num_cores); EvMap tasks].

(** ** Definitions for the statements *)

(** The region addresses the classifier receives and the state it runs in,
    when the run began in [s0], the feasible combinations were [fcs] and the
    sub-solutions were [sols]. *)
Definition collected (s0 : State) (fcs : list (list Z))
    (sols : list (Solution ContProgram CriticalRegion)) : list loc :=
  seq (length (st_heap s0)) (length (annotate_all (st_program s0) fcs sols)).

(** The state in which the classifier runs. *)
Definition annotated_state (s0 : State) (num_cores : Z) (fcs : list (list Z))
    (sols : list (Solution ContProgram CriticalRegion)) : State :=
  {| st_program := st_program s0;
     st_heap := st_heap s0 ++ annotate_all (st_program s0) fcs sols;
     st_trace := st_trace s0 ++ dispatch_events num_cores (length fcs)
                   ++ flat_map writes (collected s0 fcs sols) |}.

(** The condition of line 62, over the selected block of [H]. *)
Definition disqualified (p : MPMILP_Program) (reduce_overlap : bool)
    (block : matrix) : bool :=
  (1 <? num_t p) || hasattr_Q p || negb reduce_overlap
  || negb (numpy_isclose (numpy_sum_abs block) 0%Q).

(** The events a run appended to the trace. *)
Definition run_events (s0 sf : State) : list event :=
  drop (length (st_trace s0)) (st_trace sf).

(** Every entry of the matrix is zero. *)
Definition all_zero (m : matrix) : Prop :=
  Forall (Forall (fun q => (q == 0)%Q)) m.

(** The number of regions of the sub-solutions before position [i]. *)
Definition offset (sols : list (Solution ContProgram CriticalRegion)) (i : nat)
  : nat :=
  length (concat (map critical_regions (take i sols))).

(** Modelled from the spec: [reduce_overlapping_critical_regions_1d] of
    [region_overlap_utils.py] is absent; it "returns a deduplicated region
    list", in which each surviving region's [y_fixation] is that of a region
    of the input.  Given region objects of the heap, the reducer returns
    region objects that carry the annotations of regions it was given. *)
Definition reducer_keeps_annotations : Prop :=
  forall p regions h out h',
    (forall l, l ∈ regions -> is_Some (h !! l)) ->
    reduce_overlapping_critical_regions_1d p regions h = (inr out, h') ->
    forall l', l' ∈ fst out ->
      exists r' l r,
        h' !! l' = Some r' /\ l ∈ regions /\ h !! l = Some r
        /\ y_fixation r' = y_fixation r
        /\ y_indices r' = y_indices r
        /\ x_indices r' = x_indices r.

(** [ys] and [xs] together are exactly the indices below [n], and share
    none. *)
Definition partitions (n : nat) (ys xs : list nat) : Prop :=
  Forall (fun i => i ∈ ys \/ i ∈ xs) (seq 0 n)
  /\ Forall (fun i => i < n) (ys ++ xs)
  /\ Forall (fun i => i ∉ xs) ys.

(** The contract of the two numpy calls that the statements use: for a
    block whose entries are all zero, and for a block without entries, the
    sum of the absolute values is close to zero. *)
Hypothesis numpy_zero_block_close : forall m,
  all_zero m -> numpy_isclose (numpy_sum_abs m) 0%Q = true.

(** ** Lemmas on the building blocks *)

Lemma try_map_length {A B : Type} (f : A -> result B) xs ys :
  try_map f xs = inr ys -> length ys = length xs.
Proof.
  revert ys. induction xs as [|x xs IH]; intros ys Hm; simpl in Hm.
  - by inversion Hm.
  - destruct (f x) as [e|y]; [discriminate|].
    destruct (try_map f xs) as [e|zs]; [discriminate|].
    inversion Hm; subst. simpl. f_equal. by apply IH.
Qed.

Lemma try_map_lookup {A B : Type} (f : A -> result B) xs ys i x :
  try_map f xs = inr ys -> xs !! i = Some x ->
  exists y, ys !! i = Some y /\ f x = inr y.
Proof.
  revert ys i. induction xs as [|a xs IH]; intros ys i Hm Hx; [done|].
  simpl in Hm. destruct (f a) as [e|y] eqn:Hfa; [discriminate|].
  destruct (try_map f xs) as [e|zs] eqn:Hrest; [discriminate|].
  inversion Hm; subst. destruct i as [|i]; simpl in *.
  - inversion Hx; subst. eauto.
  - eapply IH; eauto.
Qed.

Lemma try_map_fails {A B : Type} (f : A -> result B) xs e :
  try_map f xs = inl e -> exists x, x ∈ xs /\ f x = inl e.
Proof.
  induction xs as [|a xs IH]; intros Hm; simpl in Hm; [discriminate|].
  destruct (f a) as [e'|y] eqn:Hfa.
  - inversion Hm; subst. exists a. split; [left | done].
  - destruct (try_map f xs) as [e'|zs]; [|discriminate].
    inversion Hm; subst. destruct IH as (x & Hin & Hfx); [done|].
    exists x. split; [by right | done].
Qed.

Lemma comprehension_call {A B : Type} (g : MPMILP_Program -> A -> result B) xs s :
  comprehension (fun x => let* p := program_attr id in call (g p x)) xs s
  = (try_map (g (st_program s)) xs, s).
Proof.
  induction xs as [|x xs IH]; [done|].
  simpl. unfold bind at 1. unfold bind at 1. unfold program_attr at 1, call at 1.
  simpl. destruct (g (st_program s) x) as [e|y]; [done|].
  unfold bind at 1. rewrite IH. by destruct (try_map _ xs).
Qed.

Lemma comprehension_receive sols p h t :
  comprehension receive sols {| st_program := p; st_heap := h; st_trace := t |}
  = (inr (locate (length h) sols),
     {| st_program := p; st_heap := h ++ concat (map critical_regions sols);
        st_trace := t |}).
Proof.
  revert h. induction sols as [|sol sols IH]; intros h; simpl.
  - unfold ret. by rewrite app_nil_r.
  - unfold bind at 1. unfold receive at 1. simpl.
    unfold bind at 1. rewrite IH. unfold ret.
    by rewrite length_app, <- app_assoc.
Qed.

Lemma concat_locate base sols :
  concat (map critical_regions (locate base sols))
  = seq base (length (concat (map critical_regions sols))).
Proof.
  revert base. induction sols as [|sol sols IH]; intros base; [done|].
  simpl. rewrite IH, length_app. by rewrite seq_app.
Qed.

Lemma alter_middle (f : CriticalRegion -> CriticalRegion) pre done r rest :
  alter f (length pre + length done) (pre ++ done ++ r :: rest)
  = pre ++ done ++ f r :: rest.
Proof.
  rewrite alter_app_r. f_equal.
  replace (length done) with (length done + 0) by lia.
  by rewrite alter_app_r.
Qed.

(** One pass through the body of the inner loop. *)
Lemma annotate_region_run p fcs index fb sol i l h t :
  fcs !! index = Some fb ->
  critical_regions sol !! i = Some l ->
  annotate_region fcs index sol i
    {| st_program := p; st_heap := h; st_trace := t |}
  = (inr tt,
     {| st_program := p;
        st_heap :=
          alter (set_attr (To_x_indices (cont_indices p))) l
            (alter (set_attr (To_y_indices (binary_indices p))) l
               (alter (set_attr (To_y_fixation fb)) l h));
        st_trace := t ++ writes l |}).
Proof.
  intros Hfb Hl. unfold annotate_region, subscript. rewrite Hfb, Hl.
  unfold bind, ret, setattr, program_attr.
  cbn [st_program st_heap st_trace attr_of].
  unfold writes. by rewrite <- !app_assoc.
Qed.

(** The inner loop, from position [length done] on: the regions still to do
    are annotated in place and nothing else in the heap changes. *)
Lemma annotate_inner p fcs index fb sol pre post :
  fcs !! index = Some fb ->
  forall todo done t,
    critical_regions sol = seq (length pre) (length done + length todo) ->
    for_each (seq (length done) (length todo)) (annotate_region fcs index sol)
      {| st_program := p; st_heap := pre ++ done ++ todo ++ post; st_trace := t |}
    = (inr tt,
       {| st_program := p;
          st_heap := pre ++ done ++ map (annotated p fb) todo ++ post;
          st_trace :=
            t ++ flat_map writes (seq (length pre + length done) (length todo)) |}).
Proof.
  intros Hfb. induction todo as [|r todo IH]; intros done t Hcrs.
  - simpl. unfold ret. by rewrite app_nil_r.
  - assert (Hi : critical_regions sol !! length done
                 = Some (length pre + length done)).
    { rewrite Hcrs. apply lookup_seq_lt. simpl. lia. }
    cbn [length seq for_each]. unfold bind at 1.
    rewrite (annotate_region_run _ _ _ _ _ _ _ _ _ Hfb Hi).
    cbn [app]. rewrite !alter_middle.
    cbn [set_attr body y_fixation y_indices x_indices].
    specialize (IH (done ++ [annotated p fb r])
                  (t ++ writes (length pre + length done))).
    rewrite length_app in IH. cbn [length] in IH.
    replace (length done + 1) with (S (length done)) in IH by lia.
    rewrite <- !app_assoc in IH. cbn [app] in IH.
    change (Build_CriticalRegion (body r) (Some fb) (Some (binary_indices p))
              (Some (cont_indices p))) with (annotated p fb r).
    rewrite IH.
    + cbn [map flat_map app].
      replace (length pre + S (length done)) with (S (length pre + length done))
        by lia.
      done.
    + rewrite Hcrs. f_equal. simpl. lia.
Qed.

(** The outer loop over the located sub-solutions. *)
Lemma annotate_outer p fcs post :
  forall sols index pre acc t,
    length sols <= length fcs - index ->
    annotate_loop fcs index (locate (length pre) sols) acc
      {| st_program := p;
         st_heap := pre ++ concat (map critical_regions sols) ++ post;
         st_trace := t |}
    = (inr (acc ++ map critical_regions (locate (length pre) sols)),
       {| st_program := p;
          st_heap := pre ++ annotate_all p (drop index fcs) sols ++ post;
          st_trace :=
            t ++ flat_map writes
                   (seq (length pre)
                      (length (concat (map critical_regions sols)))) |}).
Proof.
  induction sols as [|sol sols IH]; intros index pre acc t Hlen.
  - simpl. unfold ret, annotate_all.
    rewrite zip_with_nil_r. simpl. by rewrite !app_nil_r.
  - simpl in Hlen.
    destruct (fcs !! index) as [fb|] eqn:Hfb;
      [|apply lookup_ge_None in Hfb; lia].
    cbn [locate annotate_loop map concat critical_regions].
    unfold bind at 1.
    pose proof (annotate_inner p fcs index fb
                  {| program := program sol;
                     critical_regions :=
                       seq (length pre) (length (critical_regions sol));
                     is_overlapping := is_overlapping sol |}
                  pre (concat (map critical_regions sols) ++ post)
                  Hfb (critical_regions sol) [] t eq_refl) as Hin.
    cbn [length app critical_regions] in Hin.
    rewrite Nat.add_0_r in Hin.
    rewrite length_seq, <- app_assoc, Hin.
    specialize (IH (S index) (pre ++ map (annotated p fb) (critical_regions sol))
                  (acc ++ [seq (length pre) (length (critical_regions sol))])
                  (t ++ flat_map writes
                          (seq (length pre) (length (critical_regions sol))))).
    rewrite length_app, length_map in IH.
    rewrite <- !app_assoc in IH. rewrite IH by lia.
    rewrite (drop_S _ _ _ Hfb). unfold annotate_all. cbn [zip_with concat app].
    rewrite <- !app_assoc. rewrite length_app, seq_app, flat_map_app.
    done.
Qed.

(** ** Running the steps *)

Lemma bind_run {A B : Type} (c : M A) (k : A -> M B) s a s' :
  c s = (inr a, s') -> bind c k s = k a s'.
Proof. intros Hc. unfold bind. by rewrite Hc. Qed.

Lemma bind_fail {A B : Type} (c : M A) (k : A -> M B) s e s' :
  c s = (inl e, s') -> bind c k s = (inl e, s').
Proof. intros Hc. unfold bind. by rewrite Hc. Qed.

Lemma resolve_run (n : Z) p h t :
  (if (n =? -1)%Z then call_num_cpu_cores else ret n)
    {| st_program := p; st_heap := h; st_trace := t |}
  = (inr (worker_count n),
     {| st_program := p; st_heap := h;
        st_trace := t ++ (if (n =? -1)%Z then [EvNumCpuCores] else []) |}).
Proof.
  unfold worker_count. destruct (n =? -1)%Z.
  - reflexivity.
  - unfold ret. by rewrite app_nil_r.
Qed.

Lemma new_MITree_run depth p h t :
  new_MITree depth {| st_program := p; st_heap := h; st_trace := t |}
  = (MITree p depth,
     {| st_program := p; st_heap := h; st_trace := t ++ [EvMITree] |}).
Proof. reflexivity. Qed.

Lemma new_Pool_run n p h t :
  new_Pool n {| st_program := p; st_heap := h; st_trace := t |}
  = (Pool n, {| st_program := p; st_heap := h; st_trace := t ++ [EvPool n] |}).
Proof. reflexivity. Qed.

Lemma list_pool_map_run pool f xs sols p h t :
  pool_map pool f xs = inr sols ->
  list_pool_map pool f xs {| st_program := p; st_heap := h; st_trace := t |}
  = (inr (locate (length h) sols),
     {| st_program := p; st_heap := h ++ concat (map critical_regions sols);
        st_trace := t ++ [EvMap (length xs)] |}).
Proof.
  intros Hm. unfold list_pool_map.
  erewrite bind_run by reflexivity.
  erewrite bind_run by (unfold call; rewrite Hm; reflexivity).
  apply comprehension_receive.
Qed.

Lemma list_pool_map_fail pool f xs e p h t :
  pool_map pool f xs = inl e ->
  list_pool_map pool f xs {| st_program := p; st_heap := h; st_trace := t |}
  = (inl e,
     {| st_program := p; st_heap := h; st_trace := t ++ [EvMap (length xs)] |}).
Proof.
  intros Hm. unfold list_pool_map.
  erewrite bind_run by reflexivity.
  erewrite bind_fail; [reflexivity|]. unfold call. by rewrite Hm.
Qed.

Lemma length_annotate_all p fcs sols :
  length sols <= length fcs ->
  length (annotate_all p fcs sols) = length (concat (map critical_regions sols)).
Proof.
  unfold annotate_all. revert fcs.
  induction sols as [|sol sols IH]; intros fcs Hlen.
  - by rewrite zip_with_nil_r.
  - destruct fcs as [|fb fcs]; simpl in Hlen; [lia|].
    simpl. rewrite !length_app, length_map. f_equal. apply IH. lia.
Qed.

(** When the tree, the substitutions, the pool and every solve succeed, the
    run reaches the classifier with the flattened annotated regions. *)
Lemma run_to_classify s0 n alg ro tree leafs problems pool sols :
  MITree (st_program s0) 0 = inr tree ->
  get_full_leafs tree = inr leafs ->
  try_map (generate_substituted_problem (st_program s0)) (map fixed_bins leafs)
    = inr problems ->
  Pool (worker_count n) = inr pool ->
  try_map (fun x => solve_mpqp x alg) problems = inr sols ->
  solve_mpmiqp_enumeration n alg ro s0
  = classify ro (collected s0 (map fixed_bins leafs) sols)
      (annotated_state s0 n (map fixed_bins leafs) sols).
Proof.
  intros Htree Hleafs Hgen Hpool Hsolve. destruct s0 as [p h t].
  cbn [st_program] in *.
  pose proof (try_map_length _ _ _ Hgen) as Hlp.
  pose proof (try_map_length _ _ _ Hsolve) as Hls.
  pose proof (pool_map_ordered pool (fun x => solve_mpqp x alg) problems) as Hmap.
  rewrite Hsolve in Hmap.
  unfold solve_mpmiqp_enumeration.
  erewrite bind_run by apply resolve_run.
  erewrite bind_run by (rewrite new_MITree_run, Htree; reflexivity).
  erewrite bind_run by (unfold call; rewrite Hleafs; reflexivity).
  erewrite bind_run by (rewrite comprehension_call; cbn [st_program];
                        rewrite Hgen; reflexivity).
  erewrite bind_run by (rewrite new_Pool_run, Hpool; reflexivity).
  erewrite bind_run by (apply list_pool_map_run; exact Hmap).
  pose proof (annotate_outer p (map fixed_bins leafs) [] sols 0 h []) as Hout.
  rewrite !app_nil_r in Hout. cbn [drop app] in Hout.
  assert (Hle : length sols <= length (map fixed_bins leafs) - 0) by lia.
  erewrite bind_run by (apply Hout; exact Hle).
  rewrite concat_locate.
  unfold annotated_state, collected, dispatch_events.
  cbn [st_program st_heap st_trace drop].
  rewrite length_annotate_all by lia.
  rewrite Hlp, <- !app_assoc. reflexivity.
Qed.

(** ** The classifier *)

Lemma classify_index_error ro c s e :
  select_rows (H (st_program s)) (cont_indices (st_program s)) = inl e ->
  classify ro c s = (inl e, s).
Proof.
  intros Hrows. unfold classify.
  erewrite bind_run by reflexivity. erewrite bind_run by reflexivity.
  erewrite bind_fail; [reflexivity|]. unfold call. by rewrite Hrows.
Qed.

Lemma classify_flagged ro c s block :
  select_rows (H (st_program s)) (cont_indices (st_program s)) = inr block ->
  disqualified (st_program s) ro block = true ->
  classify ro c s = (inr (Build_Solution (st_program s) c true), s).
Proof.
  intros Hrows Hd. unfold classify.
  erewrite bind_run by reflexivity. erewrite bind_run by reflexivity.
  erewrite bind_run by (unfold call; rewrite Hrows; reflexivity).
  erewrite bind_run by reflexivity. erewrite bind_run by reflexivity.
  unfold disqualified in Hd. rewrite Hd. reflexivity.
Qed.

Lemma classify_reduced ro c p h t block :
  select_rows (H p) (cont_indices p) = inr block ->
  disqualified p ro block = false ->
  classify ro c {| st_program := p; st_heap := h; st_trace := t |}
  = (match fst (reduce_overlapping_critical_regions_1d p c h) with
     | inl e => inl e
     | inr out => inr (Build_Solution p (fst out) (snd out))
     end,
     {| st_program := p;
        st_heap := snd (reduce_overlapping_critical_regions_1d p c h);
        st_trace := t ++ [EvReduce] |}).
Proof.
  intros Hrows Hd. unfold classify.
  erewrite bind_run by reflexivity. erewrite bind_run by reflexivity.
  erewrite bind_run
    by (unfold call; cbn [st_program]; rewrite Hrows; reflexivity).
  erewrite bind_run by reflexivity. erewrite bind_run by reflexivity.
  unfold disqualified in Hd. cbn [st_program]. rewrite Hd.
  erewrite bind_run by reflexivity.
  unfold bind, reduce, program_attr, ret, id. cbn [st_program st_heap st_trace].
  destruct (reduce_overlapping_critical_regions_1d p c h) as [[e|out] h'];
    reflexivity.
Qed.

(** ** Runs that fail before the classifier *)

Lemma run_tree_fails s0 n alg ro e :
  MITree (st_program s0) 0 = inl e ->
  solve_mpmiqp_enumeration n alg ro s0
  = (inl e,
     {| st_program := st_program s0; st_heap := st_heap s0;
        st_trace := st_trace s0
          ++ (if (n =? -1)%Z then [EvNumCpuCores] else []) ++ [EvMITree] |}).
Proof.
  intros Htree. destruct s0 as [p h t]. cbn [st_program st_heap st_trace] in *.
  unfold solve_mpmiqp_enumeration.
  erewrite bind_run by apply resolve_run.
  erewrite bind_fail; [|rewrite new_MITree_run, Htree; reflexivity].
  by rewrite <- app_assoc.
Qed.

Lemma run_leafs_fail s0 n alg ro tree e :
  MITree (st_program s0) 0 = inr tree ->
  get_full_leafs tree = inl e ->
  solve_mpmiqp_enumeration n alg ro s0
  = (inl e,
     {| st_program := st_program s0; st_heap := st_heap s0;
        st_trace := st_trace s0
          ++ (if (n =? -1)%Z then [EvNumCpuCores] else []) ++ [EvMITree] |}).
Proof.
  intros Htree Hleafs. destruct s0 as [p h t].
  cbn [st_program st_heap st_trace] in *.
  unfold solve_mpmiqp_enumeration.
  erewrite bind_run by apply resolve_run.
  erewrite bind_run by (rewrite new_MITree_run, Htree; reflexivity).
  erewrite bind_fail; [|unfold call; rewrite Hleafs; reflexivity].
  by rewrite <- app_assoc.
Qed.

Lemma run_substitution_fails s0 n alg ro tree leafs e :
  MITree (st_program s0) 0 = inr tree ->
  get_full_leafs tree = inr leafs ->
  try_map (generate_substituted_problem (st_program s0)) (map fixed_bins leafs)
    = inl e ->
  solve_mpmiqp_enumeration n alg ro s0
  = (inl e,
     {| st_program := st_program s0; st_heap := st_heap s0;
        st_trace := st_trace s0
          ++ (if (n =? -1)%Z then [EvNumCpuCores] else []) ++ [EvMITree] |}).
Proof.
  intros Htree Hleafs Hgen. destruct s0 as [p h t].
  cbn [st_program st_heap st_trace] in *.
  unfold solve_mpmiqp_enumeration.
  erewrite bind_run by apply resolve_run.
  erewrite bind_run by (rewrite new_MITree_run, Htree; reflexivity).
  erewrite bind_run by (unfold call; rewrite Hleafs; reflexivity).
  erewrite bind_fail;
    [|rewrite comprehension_call; cbn [st_program]; rewrite Hgen; reflexivity].
  by rewrite <- app_assoc.
Qed.

Lemma run_pool_fails s0 n alg ro tree leafs problems e :
  MITree (st_program s0) 0 = inr tree ->
  get_full_leafs tree = inr leafs ->
  try_map (generate_substituted_problem (st_program s0)) (map fixed_bins leafs)
    = inr problems ->
  Pool (worker_count n) = inl e ->
  solve_mpmiqp_enumeration n alg ro s0
  = (inl e,
     {| st_program := st_program s0; st_heap := st_heap s0;
        st_trace := st_trace s0
          ++ (if (n =? -1)%Z then [EvNumCpuCores] else [])
          ++ [EvMITree; EvPool (worker_count n)] |}).
Proof.
  intros Htree Hleafs Hgen Hpool. destruct s0 as [p h t].
  cbn [st_program st_heap st_trace] in *.
  unfold solve_mpmiqp_enumeration.
  erewrite bind_run by apply resolve_run.
  erewrite bind_run by (rewrite new_MITree_run, Htree; reflexivity).
  erewrite bind_run by (unfold call; rewrite Hleafs; reflexivity).
  erewrite bind_run by (rewrite comprehension_call; cbn [st_program];
                        rewrite Hgen; reflexivity).
  erewrite bind_fail; [|rewrite new_Pool_run, Hpool; reflexivity].
  by rewrite <- !app_assoc.
Qed.

Lemma run_map_fails s0 n alg ro tree leafs problems pool e :
  MITree (st_program s0) 0 = inr tree ->
  get_full_leafs tree = inr leafs ->
  try_map (generate_substituted_problem (st_program s0)) (map fixed_bins leafs)
    = inr problems ->
  Pool (worker_count n) = inr pool ->
  pool_map pool (fun x => solve_mpqp x alg) problems = inl e ->
  solve_mpmiqp_enumeration n alg ro s0
  = (inl e,
     {| st_program := st_program s0; st_heap := st_heap s0;
        st_trace := st_trace s0
          ++ dispatch_events n (length (map fixed_bins leafs)) |}).
Proof.
  intros Htree Hleafs Hgen Hpool Hmap. destruct s0 as [p h t].
  cbn [st_program st_heap st_trace] in *.
  pose proof (try_map_length _ _ _ Hgen) as Hlp.
  unfold solve_mpmiqp_enumeration.
  erewrite bind_run by apply resolve_run.
  erewrite bind_run by (rewrite new_MITree_run, Htree; reflexivity).
  erewrite bind_run by (unfold call; rewrite Hleafs; reflexivity).
  erewrite bind_run by (rewrite comprehension_call; cbn [st_program];
                        rewrite Hgen; reflexivity).
  erewrite bind_run by (rewrite new_Pool_run, Hpool; reflexivity).
  erewrite bind_fail; [|apply list_pool_map_fail; exact Hmap].
  unfold dispatch_events. rewrite Hlp, <- !app_assoc. reflexivity.
Qed.

(** ** Every run, by cases *)

(** A run either stops before any region has been received, with the heap as
    it was, or reaches the classifier. *)
Lemma run_cases s0 n alg ro :
  (exists e tl,
     solve_mpmiqp_enumeration n alg ro s0
     = (inl e,
        {| st_program := st_program s0; st_heap := st_heap s0;
           st_trace := st_trace s0
             ++ (if (n =? -1)%Z then [EvNumCpuCores] else [])
             ++ EvMITree :: tl |})
     /\ (tl = [] \/ tl = [EvPool (worker_count n)]
         \/ exists k, tl = [EvPool (worker_count n); EvMap k]))
  \/ (exists tree leafs problems pool sols,
        MITree (st_program s0) 0 = inr tree
        /\ get_full_leafs tree = inr leafs
        /\ try_map (generate_substituted_problem (st_program s0))
             (map fixed_bins leafs) = inr problems
        /\ Pool (worker_count n) = inr pool
        /\ try_map (fun x => solve_mpqp x alg) problems = inr sols).
Proof.
  destruct (MITree (st_program s0) 0) as [e|tree] eqn:Htree.
  { left. exists e, []. split; [by apply run_tree_fails | by left]. }
  destruct (get_full_leafs tree) as [e|leafs] eqn:Hleafs.
  { left. exists e, []. split; [by eapply run_leafs_fail | by left]. }
  destruct (try_map (generate_substituted_problem (st_program s0))
              (map fixed_bins leafs)) as [e|problems] eqn:Hgen.
  { left. exists e, []. split; [by eapply run_substitution_fails | by left]. }
  destruct (Pool (worker_count n)) as [e|pool] eqn:Hpool.
  { left. exists e, [EvPool (worker_count n)].
    split; [by eapply run_pool_fails | right; by left]. }
  pose proof (pool_map_ordered pool (fun x => solve_mpqp x alg) problems) as Hmap.
  destruct (try_map (fun x => solve_mpqp x alg) problems) as [e0|sols] eqn:Hsolve.
  - destruct Hmap as (e & x & _ & _ & Hmap). left.
    exists e, [EvPool (worker_count n); EvMap (length (map fixed_bins leafs))].
    split; [|right; right; eauto].
    erewrite run_map_fails by eauto. reflexivity.
  - right. by exists tree, leafs, problems, pool, sols.
Qed.

(** The classifier either leaves the state as it is, returning the flagged
    solution unless the row selection fails, or calls the reducer. *)
Lemma classify_cases ro c s :
  (exists r, classify ro c s = (r, s)
     /\ forall sol, r = inr sol -> sol = Build_Solution (st_program s) c true)
  \/ (exists block,
        select_rows (H (st_program s)) (cont_indices (st_program s)) = inr block
        /\ disqualified (st_program s) ro block = false
        /\ classify ro c s
           = (match fst (reduce_overlapping_critical_regions_1d
                           (st_program s) c (st_heap s)) with
              | inl e => inl e
              | inr out => inr (Build_Solution (st_program s) (fst out) (snd out))
              end,
              {| st_program := st_program s;
                 st_heap := snd (reduce_overlapping_critical_regions_1d
                                   (st_program s) c (st_heap s));
                 st_trace := st_trace s ++ [EvReduce] |})).
Proof.
  destruct (select_rows (H (st_program s)) (cont_indices (st_program s)))
    as [e|block] eqn:Hrows.
  { left. exists (inl e). split; [by apply classify_index_error | done]. }
  destruct (disqualified (st_program s) ro block) eqn:Hd.
  - left. eexists. split; [by eapply classify_flagged|].
    intros sol Hsol. by inversion Hsol.
  - right. exists block. split; [done|]. split; [done|].
    destruct s as [p h t]. by eapply classify_reduced.
Qed.

(** A run that returns a solution went through every step. *)
Lemma run_returns_inv s0 n alg ro sol sf :
  solve_mpmiqp_enumeration n alg ro s0 = (inr sol, sf) ->
  exists tree leafs problems pool sols,
    MITree (st_program s0) 0 = inr tree
    /\ get_full_leafs tree = inr leafs
    /\ try_map (generate_substituted_problem (st_program s0))
         (map fixed_bins leafs) = inr problems
    /\ Pool (worker_count n) = inr pool
    /\ try_map (fun x => solve_mpqp x alg) problems = inr sols.
Proof.
  intros Hrun. destruct (run_cases s0 n alg ro) as [(e & tl & Hfail & _)|Hok].
  - rewrite Hfail in Hrun. discriminate.
  - exact Hok.
Qed.

Lemma run_events_app s0 p h evs :
  run_events s0 {| st_program := p; st_heap := h; st_trace := st_trace s0 ++ evs |}
  = evs.
Proof. unfold run_events. cbn [st_trace]. by rewrite drop_app_length. Qed.

(** ** Where each annotated region sits *)

Lemma lookup_map_Some {A B : Type} (f : A -> B) (l : list A) i x :
  l !! i = Some x -> map f l !! i = Some (f x).
Proof.
  revert i. induction l as [|a l IH]; intros [|i] Hl; simplify_eq/=; eauto.
Qed.

Lemma annotate_all_lookup p sols :
  forall fcs i fb sol j r,
    fcs !! i = Some fb -> sols !! i = Some sol ->
    critical_regions sol !! j = Some r ->
    annotate_all p fcs sols !! (offset sols i + j) = Some (annotated p fb r).
Proof.
  unfold annotate_all, offset.
  induction sols as [|sol0 sols IH]; intros fcs i fb sol j r Hfb Hsol Hr; [done|].
  destruct fcs as [|fb0 fcs]; [done|]. destruct i as [|i]; simplify_eq/=.
  - apply lookup_app_l_Some. by apply lookup_map_Some.
  - rewrite length_app, lookup_app_r; rewrite length_map; [|lia].
    replace (length (critical_regions sol0)
             + length (concat (map critical_regions (take i sols))) + j
             - length (critical_regions sol0))
      with (length (concat (map critical_regions (take i sols))) + j) by lia.
    by eapply IH.
Qed.

Lemma annotate_all_elem p sols :
  forall fcs x,
    x ∈ annotate_all p fcs sols ->
    exists i fb sol r,
      fcs !! i = Some fb /\ sols !! i = Some sol
      /\ r ∈ critical_regions sol /\ x = annotated p fb r.
Proof.
  unfold annotate_all.
  induction sols as [|sol0 sols IH]; intros fcs x Hx.
  - rewrite zip_with_nil_r in Hx. by apply elem_of_nil in Hx.
  - destruct fcs as [|fb0 fcs]; [by apply elem_of_nil in Hx|].
    simpl in Hx. apply elem_of_app in Hx as [Hx|Hx].
    + apply list_elem_of_In, in_map_iff in Hx as (r & <- & Hr).
      exists 0, fb0, sol0, r. by rewrite list_elem_of_In.
    + destruct (IH _ _ Hx) as (i & fb & sol & r & ? & ? & ? & ?).
      by exists (S i), fb, sol, r.
Qed.

Lemma annotated_heap_lookup s0 n fcs sols l :
  l ∈ collected s0 fcs sols ->
  exists x, st_heap (annotated_state s0 n fcs sols) !! l = Some x
            /\ x ∈ annotate_all (st_program s0) fcs sols.
Proof.
  unfold collected. intros Hl. apply elem_of_seq in Hl.
  cbn [annotated_state st_heap]. rewrite lookup_app_r by lia.
  destruct (lookup_lt_is_Some_2 (annotate_all (st_program s0) fcs sols)
              (l - length (st_heap s0))) as [x Hx]; [lia|].
  exists x. split; [done|]. by eapply list_elem_of_lookup_2.
Qed.

(** ** Further lemmas on runs *)

Lemma run_flagged s0 n alg ro tree leafs problems pool sols block :
  MITree (st_program s0) 0 = inr tree ->
  get_full_leafs tree = inr leafs ->
  try_map (generate_substituted_problem (st_program s0)) (map fixed_bins leafs)
    = inr problems ->
  Pool (worker_count n) = inr pool ->
  try_map (fun x => solve_mpqp x alg) problems = inr sols ->
  select_rows (H (st_program s0)) (cont_indices (st_program s0)) = inr block ->
  disqualified (st_program s0) ro block = true ->
  solve_mpmiqp_enumeration n alg ro s0
  = (inr (Build_Solution (st_program s0)
            (collected s0 (map fixed_bins leafs) sols) true),
     annotated_state s0 n (map fixed_bins leafs) sols).
Proof.
  intros Htree Hleafs Hgen Hpool Hsolve Hrows Hd.
  erewrite run_to_classify by eauto.
  by rewrite (classify_flagged ro _ (annotated_state s0 n (map fixed_bins leafs) sols)
                block).
Qed.

Lemma run_reduced s0 n alg ro tree leafs problems pool sols block :
  MITree (st_program s0) 0 = inr tree ->
  get_full_leafs tree = inr leafs ->
  try_map (generate_substituted_problem (st_program s0)) (map fixed_bins leafs)
    = inr problems ->
  Pool (worker_count n) = inr pool ->
  try_map (fun x => solve_mpqp x alg) problems = inr sols ->
  select_rows (H (st_program s0)) (cont_indices (st_program s0)) = inr block ->
  disqualified (st_program s0) ro block = false ->
  solve_mpmiqp_enumeration n alg ro s0
  = (match fst (reduce_overlapping_critical_regions_1d (st_program s0)
                  (collected s0 (map fixed_bins leafs) sols)
                  (st_heap (annotated_state s0 n (map fixed_bins leafs) sols))) with
     | inl e => inl e
     | inr out => inr (Build_Solution (st_program s0) (fst out) (snd out))
     end,
     {| st_program := st_program s0;
        st_heap := snd (reduce_overlapping_critical_regions_1d (st_program s0)
                          (collected s0 (map fixed_bins leafs) sols)
                          (st_heap (annotated_state s0 n (map fixed_bins leafs) sols)));
        st_trace := st_trace (annotated_state s0 n (map fixed_bins leafs) sols)
                      ++ [EvReduce] |}).
Proof.
  intros Htree Hleafs Hgen Hpool Hsolve Hrows Hd.
  erewrite run_to_classify by eauto.
  unfold annotated_state. by erewrite classify_reduced.
Qed.

Lemma classify_ignores_trace ro c p h t t' :
  fst (classify ro c {| st_program := p; st_heap := h; st_trace := t |})
  = fst (classify ro c {| st_program := p; st_heap := h; st_trace := t' |})
  /\ st_heap (snd (classify ro c {| st_program := p; st_heap := h; st_trace := t |}))
     = st_heap (snd (classify ro c {| st_program := p; st_heap := h; st_trace := t' |}))
  /\ st_program (snd (classify ro c {| st_program := p; st_heap := h; st_trace := t |}))
     = st_program (snd (classify ro c {| st_program := p; st_heap := h; st_trace := t' |})).
Proof.
  destruct (select_rows (H p) (cont_indices p)) as [e|block] eqn:Hrows.
  { by rewrite !(classify_index_error ro c _ e). }
  destruct (disqualified p ro block) eqn:Hd.
  - by rewrite !(classify_flagged ro c _ block).
  - by rewrite !(classify_reduced ro c _ _ _ block).
Qed.

Lemma try_map_some_fail {A B : Type} (f : A -> result B) xs x e0 :
  x ∈ xs -> f x = inl e0 -> exists e, try_map f xs = inl e.
Proof.
  induction xs as [|a xs IH]; intros Hin Hfx; [by apply elem_of_nil in Hin|].
  simpl. destruct (f a) as [e|y] eqn:Hfa; [eauto|].
  apply elem_of_cons in Hin as [->|Hin]; [congruence|].
  destruct (IH Hin Hfx) as [e He]. rewrite He. eauto.
Qed.

Lemma filter_writes (f : event -> bool) ls :
  (forall l a, f (EvSetAttr l a) = false) ->
  List.filter f (flat_map writes ls) = [].
Proof.
  intros Hf. induction ls as [|l ls IH]; [done|].
  simpl. by rewrite !Hf.
Qed.

Lemma filter_setattr_writes ls :
  List.filter is_setattr (flat_map writes ls) = flat_map writes ls.
Proof. induction ls as [|l ls IH]; [done|]. simpl. by rewrite IH. Qed.

Lemma disqualified_true_iff p ro block :
  disqualified p ro block = true
  <-> (1 < num_t p \/ is_Some (prog_Q p) \/ ro = false
       \/ numpy_isclose (numpy_sum_abs block) 0%Q = false).
Proof.
  unfold disqualified, hasattr_Q.
  rewrite !orb_true_iff, Nat.ltb_lt, !negb_true_iff. split.
  - intros [[[Hnt|HQ]|Hro]|Hc]; eauto.
    destruct (prog_Q p) as [q|]; [|discriminate]. right. left. by exists q.
  - intros [Hnt|[[q Hq]|[Hro|Hc]]]; eauto. rewrite Hq. eauto.
Qed.

(** The events of a run, from the query of the core count on. *)
Lemma events_begin_with_the_resolution s0 n alg ro :
  exists rest,
    run_events s0 (snd (solve_mpmiqp_enumeration n alg ro s0))
    = (if (n =? -1)%Z then [EvNumCpuCores] else []) ++ EvMITree :: rest
    /\ List.filter is_num_cpu_cores rest = []
    /\ (List.filter is_pool rest = []
        \/ List.filter is_pool rest
           = [EvPool (if (n =? -1)%Z then num_cpu_cores else n)])
    /\ (forall k, EvMap k ∈ rest ->
        exists k0 rest',
          rest = EvPool (if (n =? -1)%Z then num_cpu_cores else n)
                 :: EvMap k0 :: rest').
Proof.
  fold (worker_count n).
  destruct (run_cases s0 n alg ro)
    as [(e & tl & Hfail & Htl)
       |(tree & leafs & problems & pool & sols & Htree & Hleafs & Hgen
         & Hpool & Hsolve)].
  - rewrite Hfail. cbn [snd]. rewrite run_events_app. exists tl.
    split; [done|].
    destruct Htl as [->|[->|[k ->]]]; simpl.
    + split; [done|]. split; [by left|]. intros k Hk. by apply elem_of_nil in Hk.
    + split; [done|]. split; [by right|]. intros k Hk.
      apply list_elem_of_singleton in Hk. discriminate.
    + split; [done|]. split; [by right|]. intros k' _. by exists k, [].
  - rewrite (run_to_classify s0 n alg ro tree leafs problems pool sols) by done.
    set (fcs := map fixed_bins leafs). set (c := collected s0 fcs sols).
    set (s1 := annotated_state s0 n fcs sols).
    destruct (classify_cases ro c s1) as [(r & Hc & _)|(block & _ & _ & Hc)];
      rewrite Hc; cbn [snd].
    + exists ([EvPool (worker_count n); EvMap (length fcs)] ++ flat_map writes c).
      split; [|split; [|split]].
      * subst s1. unfold annotated_state, dispatch_events.
        rewrite run_events_app, <- !app_assoc. reflexivity.
      * simpl. by apply filter_writes.
      * right. simpl. by rewrite filter_writes.
      * intros k _. by exists (length fcs), (flat_map writes c).
    + exists ([EvPool (worker_count n); EvMap (length fcs)]
                ++ flat_map writes c ++ [EvReduce]).
      split; [|split; [|split]].
      * subst s1. unfold annotated_state, dispatch_events.
        cbn [st_program st_trace]. rewrite <- !app_assoc.
        rewrite run_events_app. reflexivity.
      * simpl. rewrite List.filter_app. by rewrite filter_writes.
      * right. simpl. rewrite List.filter_app. by rewrite filter_writes.
      * intros k _. by exists (length fcs), (flat_map writes c ++ [EvReduce]).
Qed.

(** * The claims *)

(** C1: when the parameter dimension exceeds 1, or the program has the
    attribute [Q], or the caller disabled the reduction, or the sum of the
    absolute values of the continuous rows of [H] is not close to zero, the
    run returns the flattened annotated region list as it is, with
    [is_overlapping = true]; the state is the one the annotation left, so no
    reduction took place. *)
Theorem flagged_when_disqualified s0 n alg ro tree leafs problems pool sols block :
  MITree (st_program s0) 0 = inr tree ->
  get_full_leafs tree = inr leafs ->
  try_map (generate_substituted_problem (st_program s0)) (map fixed_bins leafs)
    = inr problems ->
  Pool (worker_count n) = inr pool ->
  try_map (fun x => solve_mpqp x alg) problems = inr sols ->
  select_rows (H (st_program s0)) (cont_indices (st_program s0)) = inr block ->
  1 < num_t (st_program s0) \/ is_Some (prog_Q (st_program s0)) \/ ro = false
    \/ numpy_isclose (numpy_sum_abs block) 0%Q = false ->
  solve_mpmiqp_enumeration n alg ro s0
  = (inr {| program := st_program s0;
            critical_regions := collected s0 (map fixed_bins leafs) sols;
            is_overlapping := true |},
     annotated_state s0 n (map fixed_bins leafs) sols).
Proof.
  intros Htree Hleafs Hgen Hpool Hsolve Hrows Hsig.
  eapply run_flagged; eauto.
  unfold disqualified, hasattr_Q.
  destruct Hsig as [Hnt|[[q Hq]|[Hro|Hclose]]].
  - apply Nat.ltb_lt in Hnt. by rewrite Hnt.
  - rewrite Hq. by rewrite orb_true_r.
  - rewrite Hro. simpl. by rewrite orb_true_r.
  - rewrite Hclose. simpl. by rewrite !orb_true_r.
Qed.

(** C2: with a 1-dimensional parameter space, no attribute [Q], an all-zero
    continuous-row block of [H] and the reduction enabled, the flattened
    annotated region list is handed to the 1-D reducer, in the state the
    annotation left; the returned solution has the reducer's list and the
    reducer's flag, and the reducer's exception is the run's. *)
Theorem reduced_when_eligible s0 n alg tree leafs problems pool sols block :
  MITree (st_program s0) 0 = inr tree ->
  get_full_leafs tree = inr leafs ->
  try_map (generate_substituted_problem (st_program s0)) (map fixed_bins leafs)
    = inr problems ->
  Pool (worker_count n) = inr pool ->
  try_map (fun x => solve_mpqp x alg) problems = inr sols ->
  select_rows (H (st_program s0)) (cont_indices (st_program s0)) = inr block ->
  num_t (st_program s0) = 1 ->
  prog_Q (st_program s0) = None ->
  all_zero block ->
  let flattened := collected s0 (map fixed_bins leafs) sols in
  let s1 := annotated_state s0 n (map fixed_bins leafs) sols in
  let reducer_out :=
    reduce_overlapping_critical_regions_1d (st_program s0) flattened (st_heap s1) in
  solve_mpmiqp_enumeration n alg true s0
  = (match fst reducer_out with
     | inl e => inl e
     | inr (regions, overlaps_remaining) =>
         inr {| program := st_program s0; critical_regions := regions;
                is_overlapping := overlaps_remaining |}
     end,
     {| st_program := st_program s0; st_heap := snd reducer_out;
        st_trace := st_trace s1 ++ [EvReduce] |}).
Proof.
  intros Htree Hleafs Hgen Hpool Hsolve Hrows Hnt HQ Hzero flattened s1 out.
  erewrite run_to_classify by eauto.
  unfold annotated_state. erewrite classify_reduced; [|exact Hrows|].
  - subst out flattened s1. cbn [annotated_state st_heap st_trace].
    destruct (fst _) as [e|[regions flag]]; reflexivity.
  - unfold disqualified, hasattr_Q. rewrite Hnt, HQ.
    by rewrite (numpy_zero_block_close _ Hzero).
Qed.

(** C3: the [i]-th dispatched result is the solve of the [i]-th sub-problem,
    which was generated from the [i]-th feasible combination [A_i]; in the
    flattened list the regions of sub-solution [i] come after those of the
    sub-solutions before it, in their own order, and each of them carries
    [y_fixation = A_i], the binary index list of the program as [y_indices]
    and its continuous index list as [x_indices].  The flattened list is what
    the classifier receives; it is the region list of the returned solution
    whenever the reduction is disqualified. *)
Theorem annotation_follows_dispatch_order
    s0 n alg ro tree leafs problems pool sols :
  MITree (st_program s0) 0 = inr tree ->
  get_full_leafs tree = inr leafs ->
  try_map (generate_substituted_problem (st_program s0)) (map fixed_bins leafs)
    = inr problems ->
  Pool (worker_count n) = inr pool ->
  try_map (fun x => solve_mpqp x alg) problems = inr sols ->
  let fcs := map fixed_bins leafs in
  let flattened := collected s0 fcs sols in
  let s1 := annotated_state s0 n fcs sols in
  solve_mpmiqp_enumeration n alg ro s0 = classify ro flattened s1
  /\ (forall block,
        select_rows (H (st_program s0)) (cont_indices (st_program s0)) = inr block ->
        disqualified (st_program s0) ro block = true ->
        solve_mpmiqp_enumeration n alg ro s0
        = (inr (Build_Solution (st_program s0) flattened true), s1))
  /\ forall i A_i,
       fcs !! i = Some A_i ->
       exists problem sol,
         problems !! i = Some problem
         /\ generate_substituted_problem (st_program s0) A_i = inr problem
         /\ sols !! i = Some sol
         /\ solve_mpqp problem alg = inr sol
         /\ forall j r,
              critical_regions sol !! j = Some r ->
              exists l r',
                flattened !! (offset sols i + j) = Some l
                /\ st_heap s1 !! l = Some r'
                /\ body r' = body r
                /\ y_fixation r' = Some A_i
                /\ y_indices r' = Some (binary_indices (st_program s0))
                /\ x_indices r' = Some (cont_indices (st_program s0)).
Proof.
  intros Htree Hleafs Hgen Hpool Hsolve fcs flattened s1.
  assert (Hrun : solve_mpmiqp_enumeration n alg ro s0 = classify ro flattened s1)
    by (eapply run_to_classify; eauto).
  split; [exact Hrun|]. split.
  { intros block Hrows Hd. rewrite Hrun.
    by rewrite (classify_flagged ro _ s1 block). }
  intros i A_i HA.
  destruct (try_map_lookup _ _ _ _ _ Hgen HA) as (problem & Hproblem & Hsub).
  destruct (try_map_lookup _ _ _ _ _ Hsolve Hproblem) as (sol & Hsol & Hsolved).
  exists problem, sol. repeat (split; [done|]).
  intros j r Hr.
  pose proof (annotate_all_lookup (st_program s0) sols fcs i A_i sol j r
                HA Hsol Hr) as Hat.
  pose proof (lookup_lt_Some _ _ _ Hat) as Hlt.
  exists (length (st_heap s0) + (offset sols i + j)), (annotated (st_program s0) A_i r).
  split; [by apply lookup_seq_lt|]. split; [|done].
  subst s1. cbn [annotated_state st_heap]. rewrite lookup_app_r by lia.
  rewrite <- Hat. f_equal. lia.
Qed.

(** C4, as the code has it: with no feasible combination, and collaborators
    that do not raise (the pool is created, the continuous rows of [H] can
    be selected, the 1-D reducer returns on the empty list), the run returns
    a solution for the program with an empty region list.  Its flag
    [is_overlapping] is [true] when the parameter dimension exceeds 1, or the
    program has the attribute [Q], or the reduction is disabled, or the sum
    over the continuous rows is not close to zero; otherwise it is the flag
    the 1-D reducer returns for the empty list. *)
Theorem no_feasible_combination s0 n alg ro tree pool block :
  MITree (st_program s0) 0 = inr tree ->
  get_full_leafs tree = inr [] ->
  Pool (worker_count n) = inr pool ->
  select_rows (H (st_program s0)) (cont_indices (st_program s0)) = inr block ->
  reducer_keeps_annotations ->
  (forall e,
     fst (reduce_overlapping_critical_regions_1d (st_program s0) [] (st_heap s0))
     <> inl e) ->
  exists sol sf,
    solve_mpmiqp_enumeration n alg ro s0 = (inr sol, sf)
    /\ program sol = st_program s0
    /\ critical_regions sol = []
    /\ (1 < num_t (st_program s0) \/ is_Some (prog_Q (st_program s0))
        \/ ro = false \/ numpy_isclose (numpy_sum_abs block) 0%Q = false ->
        is_overlapping sol = true)
    /\ (num_t (st_program s0) <= 1 -> prog_Q (st_program s0) = None ->
        ro = true -> numpy_isclose (numpy_sum_abs block) 0%Q = true ->
        fst (reduce_overlapping_critical_regions_1d (st_program s0) []
               (st_heap s0))
        = inr ([], is_overlapping sol)).
Proof.
  intros Htree Hleafs Hpool Hrows Hkeeps Hreturns.
  rewrite (run_to_classify s0 n alg ro tree [] [] pool []) by done.
  set (s1 := {| st_program := st_program s0; st_heap := st_heap s0;
                st_trace := st_trace s0 ++ dispatch_events n 0 |}).
  assert (Hs1 : annotated_state s0 n (map fixed_bins []) [] = s1).
  { unfold annotated_state, collected, annotate_all. subst s1.
    cbn [map zip_with concat length seq flat_map]. by rewrite !app_nil_r. }
  rewrite Hs1. unfold collected, annotate_all.
  cbn [map zip_with concat length seq].
  assert (Heligible : num_t (st_program s0) <= 1 -> prog_Q (st_program s0) = None ->
            ro = true -> numpy_isclose (numpy_sum_abs block) 0%Q = true ->
            disqualified (st_program s0) ro block = false).
  { intros Hnt HQ Hro Hc.
    destruct (disqualified (st_program s0) ro block) eqn:Hd; [|done].
    apply disqualified_true_iff in Hd as [Hlt|[[q Hq]|[Hoff|Hfar]]];
      [lia|congruence..]. }
  destruct (disqualified (st_program s0) ro block) eqn:Hd.
  - rewrite (classify_flagged ro _ s1 block) by done.
    eexists _, _. split; [reflexivity|]. split; [done|]. split; [done|].
    split; [done|]. intros Hnt HQ Hro Hc.
    specialize (Heligible Hnt HQ Hro Hc). congruence.
  - subst s1. rewrite (classify_reduced ro _ _ _ _ block) by done.
    destruct (reduce_overlapping_critical_regions_1d (st_program s0) []
                (st_heap s0)) as [[e|[regions flag]] h'] eqn:Hred.
    { by destruct (Hreturns e). }
    assert (Hempty : regions = []).
    { destruct regions as [|l' regions]; [done|]. exfalso.
      assert (Halloc : forall l : nat, l ∈ @nil nat -> is_Some (st_heap s0 !! l)).
      { intros l Hl. by apply elem_of_nil in Hl. }
      destruct (Hkeeps _ _ _ _ _ Halloc Hred l') as (_ & l & _ & _ & Hl & _).
      { simpl. left. }
      by apply elem_of_nil in Hl. }
    subst regions. cbn [fst snd].
    eexists _, _. split; [reflexivity|]. split; [done|]. split; [done|].
    split; [|done].
    intros Hsig. apply disqualified_true_iff in Hsig. congruence.
Qed.

(** C5: when every assignment the search tree yields has one value per
    binary index, and the binary and continuous index lists of the program
    partition its variable indices, every region of a returned solution
    carries a [y_fixation], of that length, and [y_indices] and [x_indices]
    that partition the variable indices. *)
Theorem regions_carry_fixation_and_partition s0 n alg ro sol sf :
  (forall tree leafs,
     MITree (st_program s0) 0 = inr tree -> get_full_leafs tree = inr leafs ->
     Forall (fun leaf => length (fixed_bins leaf)
                         = length (binary_indices (st_program s0))) leafs) ->
  partitions (num_x (st_program s0)) (binary_indices (st_program s0))
    (cont_indices (st_program s0)) ->
  reducer_keeps_annotations ->
  solve_mpmiqp_enumeration n alg ro s0 = (inr sol, sf) ->
  Forall (fun l =>
            exists r fb ys xs,
              st_heap sf !! l = Some r
              /\ y_fixation r = Some fb
              /\ length fb = length (binary_indices (st_program s0))
              /\ y_indices r = Some ys /\ x_indices r = Some xs
              /\ partitions (num_x (st_program s0)) ys xs)
    (critical_regions sol).
Proof.
  intros Hlen Hpart Hred Hrun.
  destruct (run_returns_inv _ _ _ _ _ _ Hrun)
    as (tree & leafs & problems & pool & sols & Htree & Hleafs & Hgen & Hpool & Hsolve).
  specialize (Hlen tree leafs Htree Hleafs).
  set (fcs := map fixed_bins leafs) in *.
  set (s1 := annotated_state s0 n fcs sols).
  assert (Hann : forall l, l ∈ collected s0 fcs sols ->
            exists r fb, st_heap s1 !! l = Some r
              /\ y_fixation r = Some fb
              /\ length fb = length (binary_indices (st_program s0))
              /\ y_indices r = Some (binary_indices (st_program s0))
              /\ x_indices r = Some (cont_indices (st_program s0))).
  { intros l Hl.
    destruct (annotated_heap_lookup s0 n fcs sols l Hl) as (x & Hx & Hin).
    destruct (annotate_all_elem _ _ _ _ Hin) as (i & fb & sl & r & Hfb & _ & _ & ->).
    exists (annotated (st_program s0) fb r), fb. repeat (split; [done|]).
    split; [|done]. subst fcs.
    apply list_elem_of_lookup_2, list_elem_of_In, in_map_iff in Hfb
      as (leaf & <- & Hleaf).
    rewrite Forall_forall in Hlen. apply Hlen. by apply list_elem_of_In. }
  rewrite (run_to_classify s0 n alg ro tree leafs problems pool sols) in Hrun
    by done.
  fold fcs in Hrun. fold s1 in Hrun.
  apply Forall_forall. intros l Hl.
  destruct (classify_cases ro (collected s0 fcs sols) s1)
    as [(r & Hc & Hflag)|(block & _ & _ & Hc)]; rewrite Hc in Hrun.
  - inversion Hrun; subst. rewrite (Hflag sol eq_refl) in Hl. simpl in Hl.
    destruct (Hann l Hl) as (x & fb & ? & ? & ? & ? & ?).
    by exists x, fb, (binary_indices (st_program s0)), (cont_indices (st_program s0)).
  - destruct (reduce_overlapping_critical_regions_1d (st_program s1)
                (collected s0 fcs sols) (st_heap s1)) as [[e|out] h'] eqn:Hout;
      simpl in Hrun; [discriminate|].
    inversion Hrun; subst. simpl in Hl.
    assert (Halloc : forall l0, l0 ∈ collected s0 fcs sols ->
                                is_Some (st_heap s1 !! l0)).
    { intros l0 Hl0. destruct (Hann l0 Hl0) as (x & _ & Hx & _). by exists x. }
    destruct (Hred _ _ _ _ _ Halloc Hout l Hl)
      as (r' & l0 & r0 & Hr' & Hl0 & Hr0 & Hyf & Hyi & Hxi).
    destruct (Hann l0 Hl0) as (x & fb & Hx & ? & ? & ? & ?).
    assert (x = r0) by congruence. subst x.
    exists r', fb, (binary_indices (st_program s0)), (cont_indices (st_program s0)).
    simpl. split; [done|]. split; [congruence|]. split; [done|].
    split; [congruence|]. split; [congruence|done].
Qed.

(** C6: the quadratic signal is the presence of the attribute [Q] and
    nothing else.  A program that has the attribute, whatever its value and
    also when it is all zero, gets the flagged result; for a program that
    lacks it the decision rests on the three other signals alone, and when
    none of them holds the reducer is called. *)
Theorem quadratic_signal_is_attribute_presence
    s0 n alg ro tree leafs problems pool sols block :
  MITree (st_program s0) 0 = inr tree ->
  get_full_leafs tree = inr leafs ->
  try_map (generate_substituted_problem (st_program s0)) (map fixed_bins leafs)
    = inr problems ->
  Pool (worker_count n) = inr pool ->
  try_map (fun x => solve_mpqp x alg) problems = inr sols ->
  select_rows (H (st_program s0)) (cont_indices (st_program s0)) = inr block ->
  let flattened := collected s0 (map fixed_bins leafs) sols in
  let s1 := annotated_state s0 n (map fixed_bins leafs) sols in
  let reducer_out :=
    reduce_overlapping_critical_regions_1d (st_program s0) flattened (st_heap s1) in
  (hasattr_Q (st_program s0) = true <-> is_Some (prog_Q (st_program s0)))
  /\ (forall q, prog_Q (st_program s0) = Some q ->
        solve_mpmiqp_enumeration n alg ro s0
        = (inr (Build_Solution (st_program s0) flattened true), s1))
  /\ (prog_Q (st_program s0) = None ->
        disqualified (st_program s0) ro block
        = (1 <? num_t (st_program s0)) || negb ro
          || negb (numpy_isclose (numpy_sum_abs block) 0%Q))
  /\ (prog_Q (st_program s0) = None ->
        num_t (st_program s0) <= 1 -> ro = true ->
        numpy_isclose (numpy_sum_abs block) 0%Q = true ->
        solve_mpmiqp_enumeration n alg ro s0
        = (match fst reducer_out with
           | inl e => inl e
           | inr out => inr (Build_Solution (st_program s0) (fst out) (snd out))
           end,
           {| st_program := st_program s0; st_heap := snd reducer_out;
              st_trace := st_trace s1 ++ [EvReduce] |})).
Proof.
  intros Htree Hleafs Hgen Hpool Hsolve Hrows flattened s1 out.
  split; [|split; [|split]].
  - unfold hasattr_Q. destruct (prog_Q (st_program s0)); split; eauto.
    + discriminate.
    + by intros [? ?].
  - intros q Hq. subst flattened s1.
    eapply run_flagged; [done..|].
    unfold disqualified, hasattr_Q. rewrite Hq. by rewrite orb_true_r.
  - intros HQ. unfold disqualified, hasattr_Q. rewrite HQ.
    by rewrite orb_false_r.
  - intros HQ Hnt Hro Hclose. subst out flattened s1.
    eapply run_reduced; eauto.
    unfold disqualified, hasattr_Q. rewrite HQ, Hro, Hclose.
    destruct (1 <? num_t (st_program s0)) eqn:Hlt; [|done].
    apply Nat.ltb_lt in Hlt. lia.
Qed.

(** C7: the events of a run begin with the query of the core count exactly
    when the caller passed [-1]; the count is queried nowhere else; a pool is
    created at most once and a dispatch is preceded by that creation.  Once
    the sub-problems are generated, [Pool] is applied to the queried count
    under [-1] and to the caller's value otherwise: what [Pool] answers for
    that count is what the run does next, it raises the pool's exception, or
    it dispatches on the pool created and goes on with what [pool.map]
    returns. *)
Theorem worker_count_resolved_once s0 n alg ro :
  (exists rest,
     run_events s0 (snd (solve_mpmiqp_enumeration n alg ro s0))
     = (if (n =? -1)%Z then [EvNumCpuCores] else []) ++ EvMITree :: rest
     /\ List.filter is_num_cpu_cores rest = []
     /\ (List.filter is_pool rest = []
         \/ List.filter is_pool rest
            = [EvPool (if (n =? -1)%Z then num_cpu_cores else n)])
     /\ (forall k, EvMap k ∈ rest ->
         exists k0 rest',
           rest = EvPool (if (n =? -1)%Z then num_cpu_cores else n)
                  :: EvMap k0 :: rest'))
  /\ forall tree leafs problems,
       MITree (st_program s0) 0 = inr tree ->
       get_full_leafs tree = inr leafs ->
       try_map (generate_substituted_problem (st_program s0))
         (map fixed_bins leafs) = inr problems ->
       EvPool (if (n =? -1)%Z then num_cpu_cores else n)
         ∈ run_events s0 (snd (solve_mpmiqp_enumeration n alg ro s0))
       /\ (forall e,
             Pool (if (n =? -1)%Z then num_cpu_cores else n) = inl e ->
             fst (solve_mpmiqp_enumeration n alg ro s0) = inl e)
       /\ (forall pool e,
             Pool (if (n =? -1)%Z then num_cpu_cores else n) = inr pool ->
             pool_map pool (fun x => solve_mpqp x alg) problems = inl e ->
             fst (solve_mpmiqp_enumeration n alg ro s0) = inl e)
       /\ (forall pool sols,
             Pool (if (n =? -1)%Z then num_cpu_cores else n) = inr pool ->
             pool_map pool (fun x => solve_mpqp x alg) problems = inr sols ->
             solve_mpmiqp_enumeration n alg ro s0
             = classify ro (collected s0 (map fixed_bins leafs) sols)
                 (annotated_state s0 n (map fixed_bins leafs) sols)).
Proof.
  split; [apply events_begin_with_the_resolution|].
  fold (worker_count n). intros tree leafs problems Htree Hleafs Hgen.
  assert (Hsuccess : forall pool sols,
            Pool (worker_count n) = inr pool ->
            pool_map pool (fun x => solve_mpqp x alg) problems = inr sols ->
            try_map (fun x => solve_mpqp x alg) problems = inr sols).
  { intros pool sols Hpool Hmap.
    pose proof (pool_map_ordered pool (fun x => solve_mpqp x alg) problems) as Hc.
    destruct (try_map (fun x => solve_mpqp x alg) problems) as [e0|ys].
    - destruct Hc as (e & x & _ & _ & Hc). congruence.
    - congruence. }
  split; [|split; [|split]].
  - destruct (Pool (worker_count n)) as [e|pool] eqn:Hpool.
    { rewrite (run_pool_fails s0 n alg ro tree leafs problems e) by done.
      cbn [snd]. rewrite run_events_app, !elem_of_app. right.
      right. left. }
    destruct (pool_map pool (fun x => solve_mpqp x alg) problems)
      as [e|sols] eqn:Hmap.
    { rewrite (run_map_fails s0 n alg ro tree leafs problems pool e) by done.
      cbn [snd]. rewrite run_events_app. unfold dispatch_events.
      rewrite !elem_of_app. right. right. left. }
    rewrite (run_to_classify s0 n alg ro tree leafs problems pool sols)
      by eauto.
    assert (Hin : EvPool (worker_count n)
                  ∈ drop (length (st_trace s0))
                      (st_trace (annotated_state s0 n (map fixed_bins leafs) sols))).
    { unfold annotated_state, dispatch_events. cbn [st_trace].
      rewrite drop_app_length, !elem_of_app. left. right. right. left. }
    destruct (classify_cases ro (collected s0 (map fixed_bins leafs) sols)
                (annotated_state s0 n (map fixed_bins leafs) sols))
      as [(r & Hc & _)|(block & _ & _ & Hc)]; rewrite Hc; cbn [snd].
    + exact Hin.
    + unfold run_events in *. cbn [st_trace].
      rewrite drop_app_le by (unfold annotated_state; cbn [st_trace];
                              rewrite length_app; lia).
      apply elem_of_app. by left.
  - intros e Hpool.
    by rewrite (run_pool_fails s0 n alg ro tree leafs problems e).
  - intros pool e Hpool Hmap.
    by rewrite (run_map_fails s0 n alg ro tree leafs problems pool e).
  - intros pool sols Hpool Hmap. eapply run_to_classify; eauto.
Qed.

(** C8: when a run with one worker count returns a solution, the run from the
    same state with any other worker count the pool accepts returns the same
    solution, the same regions in the same order, and leaves the same
    region objects and the same program. *)
Theorem result_independent_of_worker_count s0 n1 n2 alg ro pool2 sol sf1 :
  Pool (worker_count n2) = inr pool2 ->
  solve_mpmiqp_enumeration n1 alg ro s0 = (inr sol, sf1) ->
  exists sf2,
    solve_mpmiqp_enumeration n2 alg ro s0 = (inr sol, sf2)
    /\ st_heap sf2 = st_heap sf1
    /\ st_program sf2 = st_program sf1.
Proof.
  intros Hpool2 Hrun.
  destruct (run_returns_inv _ _ _ _ _ _ Hrun)
    as (tree & leafs & problems & pool1 & sols & Htree & Hleafs & Hgen
        & Hpool1 & Hsolve).
  rewrite (run_to_classify s0 n1 alg ro tree leafs problems pool1 sols) in Hrun
    by done.
  rewrite (run_to_classify s0 n2 alg ro tree leafs problems pool2 sols) by done.
  unfold annotated_state in *.
  match goal with
  | Hr : classify ro ?c {| st_program := ?p; st_heap := ?h; st_trace := ?t1 |} = _
    |- context [classify ro ?c {| st_program := ?p; st_heap := ?h; st_trace := ?t2 |}] =>
      destruct (classify_ignores_trace ro c p h t2 t1) as (Hfst & Hheap & Hprog);
      rewrite Hr in Hfst, Hheap, Hprog;
      destruct (classify ro c {| st_program := p; st_heap := h; st_trace := t2 |})
        as [r2 sf2]
  end.
  simpl in *. subst r2. by exists sf2.
Qed.

(** C9: when the construction of the search tree raises, the run raises the
    same exception; when a sub-problem solve raises, the run raises an
    exception that a sub-problem solve raised.  In both cases no solution is
    returned and no region object has been added to the heap. *)
Theorem failures_propagate s0 n alg ro :
  (forall e,
     MITree (st_program s0) 0 = inl e ->
     exists sf,
       solve_mpmiqp_enumeration n alg ro s0 = (inl e, sf)
       /\ st_heap sf = st_heap s0)
  /\ (forall tree leafs problems pool x e0,
        MITree (st_program s0) 0 = inr tree ->
        get_full_leafs tree = inr leafs ->
        try_map (generate_substituted_problem (st_program s0))
          (map fixed_bins leafs) = inr problems ->
        Pool (worker_count n) = inr pool ->
        x ∈ problems ->
        solve_mpqp x alg = inl e0 ->
        exists e y sf,
          y ∈ problems /\ solve_mpqp y alg = inl e
          /\ solve_mpmiqp_enumeration n alg ro s0 = (inl e, sf)
          /\ st_heap sf = st_heap s0).
Proof.
  split.
  - intros e Htree. eexists. split; [by apply run_tree_fails|done].
  - intros tree leafs problems pool x e0 Htree Hleafs Hgen Hpool Hx Hfx.
    pose proof (pool_map_ordered pool (fun x => solve_mpqp x alg) problems) as Hmap.
    destruct (try_map_some_fail (fun x => solve_mpqp x alg) problems x e0 Hx Hfx)
      as [e1 He1].
    rewrite He1 in Hmap. destruct Hmap as (e & y & Hy & Hfy & Hmap).
    exists e, y. eexists. split; [done|]. split; [done|].
    split; [by eapply run_map_fails|done].
Qed.

(** C10: whatever the outcome, the program object is at the end what it was
    at the start, and the returned solution refers to it.  The attribute
    assignments of the run are the three assignments on each region object
    received from the sub-problem solves, once each and in order; unless the
    reducer was called, the heap is the initial heap followed by those
    objects. *)
Theorem program_never_mutated s0 n alg ro :
  st_program (snd (solve_mpmiqp_enumeration n alg ro s0)) = st_program s0
  /\ (forall sol,
        fst (solve_mpmiqp_enumeration n alg ro s0) = inr sol ->
        program sol = st_program s0)
  /\ exists new,
       List.filter is_setattr
         (run_events s0 (snd (solve_mpmiqp_enumeration n alg ro s0)))
       = flat_map writes (seq (length (st_heap s0)) (length new))
       /\ (EvReduce ∉ run_events s0 (snd (solve_mpmiqp_enumeration n alg ro s0)) ->
           st_heap (snd (solve_mpmiqp_enumeration n alg ro s0))
           = st_heap s0 ++ new).
Proof.
  destruct (run_cases s0 n alg ro)
    as [(e & tl & Hfail & Htl)
       |(tree & leafs & problems & pool & sols & Htree & Hleafs & Hgen
         & Hpool & Hsolve)].
  - rewrite Hfail. cbn [fst snd st_program st_heap].
    split; [done|]. split; [discriminate|].
    exists []. rewrite run_events_app, app_nil_r. split; [|done].
    rewrite List.filter_app.
    destruct Htl as [->|[->|[k ->]]]; by destruct (n =? -1)%Z.
  - rewrite (run_to_classify s0 n alg ro tree leafs problems pool sols) by done.
    set (fcs := map fixed_bins leafs). set (c := collected s0 fcs sols).
    set (s1 := annotated_state s0 n fcs sols).
    destruct (classify_cases ro c s1) as [(r & Hc & Hflag)|(block & _ & _ & Hc)];
      rewrite Hc; cbn [fst snd].
    + split; [done|]. split.
      { intros sol Hsol. by rewrite (Hflag sol Hsol). }
      exists (annotate_all (st_program s0) fcs sols). split; [|done].
      subst s1. unfold annotated_state. rewrite run_events_app.
      rewrite List.filter_app, filter_setattr_writes.
      unfold dispatch_events. rewrite List.filter_app.
      by destruct (n =? -1)%Z.
    + split; [done|]. split.
      { intros sol Hsol.
        destruct (fst (reduce_overlapping_critical_regions_1d _ _ _));
          by inversion Hsol. }
      exists (annotate_all (st_program s0) fcs sols). split.
      * subst s1. unfold annotated_state. cbn [st_program st_trace].
        rewrite <- !app_assoc, run_events_app.
        rewrite !List.filter_app, filter_setattr_writes.
        unfold dispatch_events. rewrite List.filter_app.
        destruct (n =? -1)%Z; simpl; by rewrite app_nil_r.
      * intros Hno. exfalso. apply Hno.
        subst s1. unfold annotated_state. cbn [st_program st_trace].
        rewrite <- !app_assoc, run_events_app.
        rewrite !elem_of_app. right. right. by left.
Qed.

(** * Further properties of the solver *)

(** ** Lemmas on the row selection and the bilinear check *)

Lemma select_rows_fails_inv m rows e :
  select_rows m rows = inl e ->
  e = IndexError /\ Exists (fun i => length m <= i) rows.
Proof.
  unfold select_rows. induction rows as [|i rows IH]; intros Hs; [discriminate|].
  simpl in Hs. destruct (m !! i) as [r|] eqn:Hi.
  - destruct (try_map _ rows) as [e'|rs]; [|discriminate].
    inversion Hs; subst. destruct (IH eq_refl) as [-> Hex].
    split; [done|]. by apply Exists_cons_tl.
  - inversion Hs; subst. split; [done|].
    apply Exists_cons_hd. by apply lookup_ge_None.
Qed.

Lemma select_rows_out_of_range m rows :
  Exists (fun i => length m <= i) rows -> select_rows m rows = inl IndexError.
Proof.
  intros Hex. destruct (select_rows m rows) as [e|block] eqn:Hs.
  - by destruct (select_rows_fails_inv _ _ _ Hs) as [-> _].
  - exfalso. revert block Hs. unfold select_rows.
    induction Hex as [i rows Hi|i rows _ IH]; intros block Hs;
      cbn [try_map] in Hs; unfold matrix in *.
    + apply lookup_ge_None in Hi. by rewrite Hi in Hs.
    + destruct (m !! i); [|discriminate].
      destruct (try_map _ rows) as [e|rs]; [discriminate|]. by eapply IH.
Qed.

Lemma select_rows_nil m : select_rows m [] = inr [].
Proof. reflexivity. Qed.

Lemma try_map_app_fail {A B : Type} (f : A -> result B) done x rest ys e :
  try_map f done = inr ys -> f x = inl e ->
  try_map f (done ++ x :: rest) = inl e.
Proof.
  revert ys. induction done as [|a done IH]; intros ys Hd Hx; simpl.
  - by rewrite Hx.
  - simpl in Hd. destruct (f a) as [e'|y]; [discriminate|].
    destruct (try_map f done) as [e'|zs]; [discriminate|].
    by rewrite (IH zs).
Qed.

Lemma reduce_not_in_writes ls : EvReduce ∉ flat_map writes ls.
Proof.
  induction ls as [|l ls IH]; [apply not_elem_of_nil|].
  simpl. rewrite !not_elem_of_cons. done.
Qed.

Lemma run_index_error s0 n alg ro tree leafs problems pool sols e :
  MITree (st_program s0) 0 = inr tree ->
  get_full_leafs tree = inr leafs ->
  try_map (generate_substituted_problem (st_program s0)) (map fixed_bins leafs)
    = inr problems ->
  Pool (worker_count n) = inr pool ->
  try_map (fun x => solve_mpqp x alg) problems = inr sols ->
  select_rows (H (st_program s0)) (cont_indices (st_program s0)) = inl e ->
  solve_mpmiqp_enumeration n alg ro s0
  = (inl e, annotated_state s0 n (map fixed_bins leafs) sols).
Proof.
  intros Htree Hleafs Hgen Hpool Hsolve Hrows.
  erewrite run_to_classify by eauto.
  by rewrite (classify_index_error ro _
                (annotated_state s0 n (map fixed_bins leafs) sols) e).
Qed.

(** The outcome and the heap of a run depend on the worker count only
    through the count handed to the pool. *)
Lemma run_depends_on_worker_count s0 n n' alg ro :
  worker_count n = worker_count n' ->
  fst (solve_mpmiqp_enumeration n alg ro s0)
  = fst (solve_mpmiqp_enumeration n' alg ro s0)
  /\ st_heap (snd (solve_mpmiqp_enumeration n alg ro s0))
     = st_heap (snd (solve_mpmiqp_enumeration n' alg ro s0))
  /\ st_program (snd (solve_mpmiqp_enumeration n alg ro s0))
     = st_program (snd (solve_mpmiqp_enumeration n' alg ro s0)).
Proof.
  intros Hw.
  destruct (MITree (st_program s0) 0) as [e|tree] eqn:Htree.
  { by rewrite !(run_tree_fails s0 _ alg ro e). }
  destruct (get_full_leafs tree) as [e|leafs] eqn:Hleafs.
  { by rewrite !(run_leafs_fail s0 _ alg ro tree e). }
  destruct (try_map (generate_substituted_problem (st_program s0))
              (map fixed_bins leafs)) as [e|problems] eqn:Hgen.
  { by rewrite !(run_substitution_fails s0 _ alg ro tree leafs e). }
  destruct (Pool (worker_count n)) as [e|pool] eqn:Hpool.
  { rewrite (run_pool_fails s0 n alg ro tree leafs problems e) by done.
    rewrite (run_pool_fails s0 n' alg ro tree leafs problems e);
      [done..|by rewrite <- Hw]. }
  destruct (pool_map pool (fun x => solve_mpqp x alg) problems)
    as [e|sols'] eqn:Hmap.
  { rewrite (run_map_fails s0 n alg ro tree leafs problems pool e) by done.
    rewrite (run_map_fails s0 n' alg ro tree leafs problems pool e);
      [done..|by rewrite <- Hw|done]. }
  pose proof (pool_map_ordered pool (fun x => solve_mpqp x alg) problems) as Hc.
  destruct (try_map (fun x => solve_mpqp x alg) problems) as [e0|sols] eqn:Hsolve.
  { destruct Hc as (e & x & _ & _ & Hc). congruence. }
  rewrite (run_to_classify s0 n alg ro tree leafs problems pool sols) by done.
  rewrite (run_to_classify s0 n' alg ro tree leafs problems pool sols);
    [|done..|by rewrite <- Hw|done].
  unfold annotated_state. apply classify_ignores_trace.
Qed.

(** ** The properties *)

(** X1: an exception of a run was raised by a collaborator, or it is the
    [IndexError] of the row selection [H[cont_indices, :]] with a continuous
    index beyond the rows of [H].  The subscripts of the annotation loop
    never raise. *)
Theorem exceptions_have_an_origin s0 n alg ro e :
  fst (solve_mpmiqp_enumeration n alg ro s0) = inl e ->
  MITree (st_program s0) 0 = inl e
  \/ (exists tree, MITree (st_program s0) 0 = inr tree
                  /\ get_full_leafs tree = inl e)
  \/ (exists tree leafs fb,
        MITree (st_program s0) 0 = inr tree /\ get_full_leafs tree = inr leafs
        /\ fb ∈ map fixed_bins leafs
        /\ generate_substituted_problem (st_program s0) fb = inl e)
  \/ Pool (worker_count n) = inl e
  \/ (exists tree leafs fb x,
        MITree (st_program s0) 0 = inr tree /\ get_full_leafs tree = inr leafs
        /\ fb ∈ map fixed_bins leafs
        /\ generate_substituted_problem (st_program s0) fb = inr x
        /\ solve_mpqp x alg = inl e)
  \/ (e = IndexError
      /\ Exists (fun i => length (H (st_program s0)) <= i)
           (cont_indices (st_program s0)))
  \/ (exists regions h,
        fst (reduce_overlapping_critical_regions_1d (st_program s0) regions h)
        = inl e).
Proof.
  intros Hrun.
  destruct (MITree (st_program s0) 0) as [e'|tree] eqn:Htree.
  { rewrite (run_tree_fails s0 n alg ro e') in Hrun by done.
    left. simpl in Hrun. congruence. }
  right. destruct (get_full_leafs tree) as [e'|leafs] eqn:Hleafs.
  { rewrite (run_leafs_fail s0 n alg ro tree e') in Hrun by done.
    left. exists tree. simpl in Hrun. split; [done|congruence]. }
  right.
  destruct (try_map (generate_substituted_problem (st_program s0))
              (map fixed_bins leafs)) as [e'|problems] eqn:Hgen.
  { rewrite (run_substitution_fails s0 n alg ro tree leafs e') in Hrun by done.
    left. destruct (try_map_fails _ _ _ Hgen) as (fb & Hin & Hfb).
    exists tree, leafs, fb. simpl in Hrun. repeat (split; [done|]). congruence. }
  right. destruct (Pool (worker_count n)) as [e'|pool] eqn:Hpool.
  { rewrite (run_pool_fails s0 n alg ro tree leafs problems e') in Hrun by done.
    left. simpl in Hrun. congruence. }
  right.
  pose proof (pool_map_ordered pool (fun x => solve_mpqp x alg) problems) as Hmap.
  destruct (try_map (fun x => solve_mpqp x alg) problems) as [e0|sols] eqn:Hsolve.
  { destruct Hmap as (e' & x & Hx & Hfx & Hmap).
    rewrite (run_map_fails s0 n alg ro tree leafs problems pool e') in Hrun
      by done.
    left. simpl in Hrun. inversion Hrun; subst.
    apply list_elem_of_lookup_1 in Hx as [i Hi].
    destruct (lookup_lt_is_Some_2 (map fixed_bins leafs) i) as [fb Hfb].
    { rewrite <- (try_map_length _ _ _ Hgen). by eapply lookup_lt_Some. }
    destruct (try_map_lookup _ _ _ _ _ Hgen Hfb) as (x' & Hx' & Hsub).
    exists tree, leafs, fb, x. repeat (split; [done|]).
    split; [by eapply list_elem_of_lookup_2|]. split; [congruence|done]. }
  right.
  destruct (select_rows (H (st_program s0)) (cont_indices (st_program s0)))
    as [e'|block] eqn:Hrows.
  { rewrite (run_index_error s0 n alg ro tree leafs problems pool sols e')
      in Hrun by done.
    left. simpl in Hrun. inversion Hrun; subst.
    by apply select_rows_fails_inv in Hrows. }
  right. destruct (disqualified (st_program s0) ro block) eqn:Hd.
  { by rewrite (run_flagged s0 n alg ro tree leafs problems pool sols block)
      in Hrun. }
  rewrite (run_reduced s0 n alg ro tree leafs problems pool sols block) in Hrun
    by done.
  simpl in Hrun. eexists _, _.
  destruct (fst (reduce_overlapping_critical_regions_1d _ _ _)) as [e'|out] eqn:Hr;
    [|discriminate].
  by inversion Hrun; subst.
Qed.

(** X2: when a continuous index lies beyond the rows of [H], a run whose
    collaborators all succeed raises [IndexError] at the row selection,
    whatever the other signals are; by then the regions have been received
    and annotated. *)
Theorem row_selection_out_of_range s0 n alg ro tree leafs problems pool sols :
  MITree (st_program s0) 0 = inr tree ->
  get_full_leafs tree = inr leafs ->
  try_map (generate_substituted_problem (st_program s0)) (map fixed_bins leafs)
    = inr problems ->
  Pool (worker_count n) = inr pool ->
  try_map (fun x => solve_mpqp x alg) problems = inr sols ->
  Exists (fun i => length (H (st_program s0)) <= i)
    (cont_indices (st_program s0)) ->
  solve_mpmiqp_enumeration n alg ro s0
  = (inl IndexError, annotated_state s0 n (map fixed_bins leafs) sols).
Proof.
  intros Htree Hleafs Hgen Hpool Hsolve Hex.
  eapply run_index_error; eauto. by apply select_rows_out_of_range.
Qed.

(** X3: when the substitution raises for a feasible combination, the run
    raises the exception of the first such combination in the order of the
    leaves; no pool has been created and no sub-problem dispatched. *)
Theorem substitution_failure_stops_before_dispatch
    s0 n alg ro tree leafs done fb rest problems e :
  MITree (st_program s0) 0 = inr tree ->
  get_full_leafs tree = inr leafs ->
  map fixed_bins leafs = done ++ fb :: rest ->
  try_map (generate_substituted_problem (st_program s0)) done = inr problems ->
  generate_substituted_problem (st_program s0) fb = inl e ->
  solve_mpmiqp_enumeration n alg ro s0
  = (inl e,
     {| st_program := st_program s0; st_heap := st_heap s0;
        st_trace := st_trace s0
          ++ (if (n =? -1)%Z then [EvNumCpuCores] else []) ++ [EvMITree] |}).
Proof.
  intros Htree Hleafs Hsplit Hdone Hfb.
  eapply run_substitution_fails; eauto.
  rewrite Hsplit. by eapply try_map_app_fail.
Qed.

(** X4: when the pool refuses the worker count, the run raises the pool's
    exception after every sub-problem has been generated and before any is
    dispatched; the heap is as it was. *)
Theorem pool_refusal_propagates s0 n alg ro tree leafs problems e :
  MITree (st_program s0) 0 = inr tree ->
  get_full_leafs tree = inr leafs ->
  try_map (generate_substituted_problem (st_program s0)) (map fixed_bins leafs)
    = inr problems ->
  Pool (if (n =? -1)%Z then num_cpu_cores else n) = inl e ->
  solve_mpmiqp_enumeration n alg ro s0
  = (inl e,
     {| st_program := st_program s0; st_heap := st_heap s0;
        st_trace := st_trace s0
          ++ (if (n =? -1)%Z then [EvNumCpuCores] else [])
          ++ [EvMITree; EvPool (if (n =? -1)%Z then num_cpu_cores else n)] |}).
Proof. intros. by eapply run_pool_fails. Qed.

(** X5: a returned solution with [is_overlapping = false] comes from the
    reducer: the reduction was enabled, the parameter dimension is at most 1,
    the program has no attribute [Q], the continuous rows of [H] sum to a
    value close to zero, and the 1-D reducer was called and returned the
    solution's region list together with the flag [false]. *)
Theorem unflagged_result_comes_from_reducer s0 n alg ro sol sf :
  solve_mpmiqp_enumeration n alg ro s0 = (inr sol, sf) ->
  is_overlapping sol = false ->
  ro = true
  /\ num_t (st_program s0) <= 1
  /\ prog_Q (st_program s0) = None
  /\ (exists block,
        select_rows (H (st_program s0)) (cont_indices (st_program s0)) = inr block
        /\ numpy_isclose (numpy_sum_abs block) 0%Q = true)
  /\ EvReduce ∈ run_events s0 sf
  /\ exists regions h,
       reduce_overlapping_critical_regions_1d (st_program s0) regions h
       = (inr (critical_regions sol, false), st_heap sf).
Proof.
  intros Hrun Hflag.
  destruct (run_returns_inv _ _ _ _ _ _ Hrun)
    as (tree & leafs & problems & pool & sols & Htree & Hleafs & Hgen & Hpool
        & Hsolve).
  destruct (select_rows (H (st_program s0)) (cont_indices (st_program s0)))
    as [e|block] eqn:Hrows.
  { by rewrite (run_index_error s0 n alg ro tree leafs problems pool sols e)
      in Hrun. }
  destruct (disqualified (st_program s0) ro block) eqn:Hd.
  { rewrite (run_flagged s0 n alg ro tree leafs problems pool sols block)
      in Hrun by done.
    inversion Hrun; subst. discriminate. }
  rewrite (run_reduced s0 n alg ro tree leafs problems pool sols block) in Hrun
    by done.
  unfold disqualified, hasattr_Q in Hd.
  apply orb_false_elim in Hd as [Hd Hclose].
  apply orb_false_elim in Hd as [Hd Hro].
  apply orb_false_elim in Hd as [Hnt HQ].
  split; [by destruct ro|]. split; [by apply Nat.ltb_ge in Hnt|].
  split; [by destruct (prog_Q (st_program s0))|].
  split; [exists block; split; [done|by apply negb_false_iff]|].
  destruct (reduce_overlapping_critical_regions_1d (st_program s0)
              (collected s0 (map fixed_bins leafs) sols)
              (st_heap (annotated_state s0 n (map fixed_bins leafs) sols)))
    as [[e|[regions flag]] h'] eqn:Hred; simpl in Hrun; [discriminate|].
  inversion Hrun; subst. simpl in Hflag. subst flag. split.
  - unfold annotated_state. cbn [st_trace]. rewrite <- !app_assoc.
    rewrite run_events_app, !elem_of_app. right. right. by left.
  - eexists _, _. exact Hred.
Qed.

(** X6: when the caller disabled the reduction, or the parameter dimension
    exceeds 1, or the program has the attribute [Q], no run calls the 1-D
    reducer, whatever its outcome. *)
Theorem reducer_not_called_when_disqualified s0 n alg ro :
  ro = false \/ 1 < num_t (st_program s0) \/ is_Some (prog_Q (st_program s0)) ->
  EvReduce ∉ run_events s0 (snd (solve_mpmiqp_enumeration n alg ro s0)).
Proof.
  intros Hsig.
  assert (Hd : forall block, disqualified (st_program s0) ro block = true).
  { intros block. unfold disqualified, hasattr_Q.
    destruct Hsig as [->|[Hnt|[q Hq]]].
    - simpl. by rewrite orb_true_r.
    - apply Nat.ltb_lt in Hnt. by rewrite Hnt.
    - rewrite Hq. by rewrite orb_true_r. }
  assert (Hpre : EvReduce ∉ (if (n =? -1)%Z then [EvNumCpuCores] else [])).
  { destruct (n =? -1)%Z; [|apply not_elem_of_nil].
    rewrite not_elem_of_cons. split; [done|apply not_elem_of_nil]. }
  destruct (run_cases s0 n alg ro)
    as [(e & tl & Hfail & Htl)
       |(tree & leafs & problems & pool & sols & Htree & Hleafs & Hgen
         & Hpool & Hsolve)].
  - rewrite Hfail. cbn [snd]. rewrite run_events_app.
    rewrite not_elem_of_app. split; [done|].
    destruct Htl as [->|[->|[k ->]]]; rewrite ?not_elem_of_cons;
      repeat split; try done; apply not_elem_of_nil.
  - assert (Hstate : st_trace (snd (solve_mpmiqp_enumeration n alg ro s0))
                     = st_trace (annotated_state s0 n (map fixed_bins leafs) sols)).
    { destruct (select_rows (H (st_program s0)) (cont_indices (st_program s0)))
        as [e|block] eqn:Hrows.
      - by rewrite (run_index_error s0 n alg ro tree leafs problems pool sols e).
      - by rewrite (run_flagged s0 n alg ro tree leafs problems pool sols block). }
    unfold run_events. rewrite Hstate. unfold annotated_state, dispatch_events.
    cbn [st_trace]. rewrite drop_app_length.
    rewrite !not_elem_of_app, !not_elem_of_cons.
    repeat split; try done; [apply not_elem_of_nil|apply reduce_not_in_writes].
Qed.

(** X9: a program with no continuous index passes the bilinear check
    whatever [H] holds: the row selection is empty and cannot raise, and the
    sum is zero.  With parameter dimension at most 1, no attribute [Q] and
    the reduction enabled, the regions go to the reducer. *)
Theorem no_continuous_index_passes_bilinear_check
    s0 n alg tree leafs problems pool sols :
  MITree (st_program s0) 0 = inr tree ->
  get_full_leafs tree = inr leafs ->
  try_map (generate_substituted_problem (st_program s0)) (map fixed_bins leafs)
    = inr problems ->
  Pool (worker_count n) = inr pool ->
  try_map (fun x => solve_mpqp x alg) problems = inr sols ->
  cont_indices (st_program s0) = [] ->
  num_t (st_program s0) <= 1 ->
  prog_Q (st_program s0) = None ->
  let flattened := collected s0 (map fixed_bins leafs) sols in
  let s1 := annotated_state s0 n (map fixed_bins leafs) sols in
  let reducer_out :=
    reduce_overlapping_critical_regions_1d (st_program s0) flattened (st_heap s1) in
  solve_mpmiqp_enumeration n alg true s0
  = (match fst reducer_out with
     | inl e => inl e
     | inr out => inr (Build_Solution (st_program s0) (fst out) (snd out))
     end,
     {| st_program := st_program s0; st_heap := snd reducer_out;
        st_trace := st_trace s1 ++ [EvReduce] |}).
Proof.
  intros Htree Hleafs Hgen Hpool Hsolve Hci Hnt HQ flattened s1 out.
  subst out flattened s1.
  eapply (run_reduced s0 n alg true tree leafs problems pool sols []); eauto.
  - rewrite Hci. apply select_rows_nil.
  - unfold disqualified, hasattr_Q.
    rewrite HQ, (numpy_zero_block_close [] (Forall_nil_2 _)).
    destruct (1 <? num_t (st_program s0)) eqn:Hlt; [|done].
    apply Nat.ltb_lt in Hlt. lia.
Qed.

(** X10: on the flagged path the returned list holds every region of every
    sub-solution once: its length is the sum of the sizes of the
    sub-solutions, it has no repetition, and its entries are the objects
    added to the heap by this run, none of those the heap held before. *)
Theorem flagged_result_lists_every_region_once
    s0 n alg ro tree leafs problems pool sols block :
  MITree (st_program s0) 0 = inr tree ->
  get_full_leafs tree = inr leafs ->
  try_map (generate_substituted_problem (st_program s0)) (map fixed_bins leafs)
    = inr problems ->
  Pool (worker_count n) = inr pool ->
  try_map (fun x => solve_mpqp x alg) problems = inr sols ->
  select_rows (H (st_program s0)) (cont_indices (st_program s0)) = inr block ->
  disqualified (st_program s0) ro block = true ->
  exists sol sf,
    solve_mpmiqp_enumeration n alg ro s0 = (inr sol, sf)
    /\ length (critical_regions sol)
       = list_sum (map length (map critical_regions sols))
    /\ NoDup (critical_regions sol)
    /\ length (st_heap sf)
       = length (st_heap s0) + length (critical_regions sol)
    /\ forall l, l ∈ critical_regions sol ->
                 length (st_heap s0) <= l < length (st_heap sf).
Proof.
  intros Htree Hleafs Hgen Hpool Hsolve Hrows Hd.
  eexists _, _. split; [by eapply run_flagged|].
  pose proof (try_map_length _ _ _ Hgen) as Hlp.
  pose proof (try_map_length _ _ _ Hsolve) as Hls.
  cbn [critical_regions annotated_state st_heap]. unfold collected.
  rewrite length_seq, length_app.
  split; [rewrite length_annotate_all by lia; apply length_concat|].
  split; [apply NoDup_seq|]. split; [done|].
  intros l Hl. apply elem_of_seq in Hl. lia.
Qed.

(** X11: passing [-1] and passing the core count the platform reports give
    the same outcome, a solution or an exception, and leave the same heap and
    the same program. *)
Theorem sentinel_is_the_explicit_core_count s0 alg ro :
  fst (solve_mpmiqp_enumeration (-1)%Z alg ro s0)
  = fst (solve_mpmiqp_enumeration num_cpu_cores alg ro s0)
  /\ st_heap (snd (solve_mpmiqp_enumeration (-1)%Z alg ro s0))
     = st_heap (snd (solve_mpmiqp_enumeration num_cpu_cores alg ro s0))
  /\ st_program (snd (solve_mpmiqp_enumeration (-1)%Z alg ro s0))
     = st_program (snd (solve_mpmiqp_enumeration num_cpu_cores alg ro s0)).
Proof.
  apply run_depends_on_worker_count. unfold worker_count.
  change ((-1 =? -1)%Z) with true. cbv iota.
  by destruct (num_cpu_cores =? -1)%Z.
Qed.

End Enumeration.

(** * A concrete instance

    Region bodies are numbers, a continuous program is the combination it
    was generated from, the tree is its list of leaves, a pool is its worker
    count, and the pool maps sequentially. *)
Module Demo.

Definition region (b : nat) : CriticalRegion nat :=
  {| body := b; y_fixation := None; y_indices := None; x_indices := None |}.

(** Three variables, the first two binary; one parameter; no [Q]; the
    continuous row of [H] is zero. *)
Definition milp : MPMILP_Program :=
  {| H := [[1%Q]; [2%Q]; [0%Q]]; binary_indices := [0; 1]; cont_indices := [2];
     num_t := 1; num_x := 3; prog_Q := None |}.

(** The same program over two parameters. *)
Definition milp_2d : MPMILP_Program :=
  {| H := [[1%Q; 0%Q]; [2%Q; 0%Q]; [0%Q; 0%Q]]; binary_indices := [0; 1];
     cont_indices := [2]; num_t := 2; num_x := 3; prog_Q := None |}.

(** The same program with the entry [1/2] in its continuous row of [H]. *)
Definition milp_bilinear : MPMILP_Program :=
  {| H := [[1%Q]; [2%Q]; [(1 # 2)%Q]]; binary_indices := [0; 1];
     cont_indices := [2]; num_t := 1; num_x := 3; prog_Q := None |}.

(** The same program with an attribute [Q] that is all zero. *)
Definition miqp_zero : MPMILP_Program :=
  {| H := [[1%Q]; [2%Q]; [0%Q]]; binary_indices := [0; 1]; cont_indices := [2];
     num_t := 1; num_x := 3; prog_Q := Some [[0%Q]] |}.

Definition cores : Z := 4%Z.

Definition leaves_of (fbs : list (list Z)) : list MITreeNode :=
  map Build_MITreeNode fbs.

(** The tree is given in advance, or its construction raises. *)
Definition tree_of (t : result (list MITreeNode)) (p : MPMILP_Program)
    (depth : nat) : result (list MITreeNode) := t.

Definition leafs_of (t : list MITreeNode) : result (list MITreeNode) := inr t.

Definition substitute (p : MPMILP_Program) (fb : list Z) : result (list Z) :=
  inr fb.

(** Two regions per sub-problem, numbered after the first fixed binary; a
    sub-problem whose first fixed binary is 2 cannot be solved. *)
Definition solve (x : list Z) (alg : unit)
  : result (Solution (list Z) (CriticalRegion nat)) :=
  let k := Z.to_nat (hd 0%Z x) in
  if (k =? 2)%nat then inl (Raised 7)
  else inr {| program := x;
              critical_regions := [region (10 * k); region (10 * k + 1)];
              is_overlapping := false |}.

(** The pool refuses a worker count below 1. *)
Definition pool_of (n : Z) : result Z :=
  if (1 <=? n)%Z then inr n else inl (Raised 22).

Definition seq_map (pool : Z)
    (f : list Z -> result (Solution (list Z) (CriticalRegion nat)))
    (xs : list (list Z)) : result (list (Solution (list Z) (CriticalRegion nat))) :=
  try_map f xs.

(** A reducer that keeps the regions at odd addresses and reports no
    overlap. *)
Definition reducer (p : MPMILP_Program) (regions : list nat)
    (h : list (CriticalRegion nat))
  : result (list nat * bool) * list (CriticalRegion nat) :=
  (inr (List.filter Nat.odd regions, false), h).

(** The numeric library of the instance: the sum of the absolute values is
    exact, and the comparison is the one of [numpy.isclose] with the binary64
    values of the default tolerances [rtol = 1e-05] and [atol = 1e-08].  The
    matrices of the instance have sums that binary64 holds exactly. *)
Definition sum_abs (m : matrix) : Q :=
  fold_right Qplus 0%Q (map Qabs (concat m)).

Definition rtol : Q := (5902958103587057 # 590295810358705651712)%Q.

Definition atol : Q := (3022314549036573 # 302231454903657293676544)%Q.

Definition isclose (a b : Q) : bool :=
  Qle_bool (Qabs (a - b)) (atol + rtol * Qabs b)%Q.

Definition run (t : result (list MITreeNode)) :=
  solve_mpmiqp_enumeration nat (list Z) unit (list MITreeNode) Z
    cores (tree_of t) leafs_of substitute solve pool_of seq_map reducer
    Q sum_abs isclose.

(** The heap of the caller holds one region object already. *)
Definition start (p : MPMILP_Program) : State nat :=
  {| st_program := p; st_heap := [region 7]; st_trace := [] |}.

Definition two_combinations : list (list Z) := [[0; 0]; [1; 1]]%Z.

Definition two_leaves : list MITreeNode := leaves_of two_combinations.

(** What [solve] returns for the two combinations. *)
Definition two_solutions : list (Solution (list Z) (CriticalRegion nat)) :=
  [ {| program := [0; 0]%Z; critical_regions := [region 0; region 1];
       is_overlapping := false |};
    {| program := [1; 1]%Z; critical_regions := [region 10; region 11];
       is_overlapping := false |} ].

Lemma seq_map_ordered pool f xs :
  match try_map f xs with
  | inr ys => seq_map pool f xs = inr ys
  | inl _ => exists e x, x ∈ xs /\ f x = inl e /\ seq_map pool f xs = inl e
  end.
Proof.
  unfold seq_map. destruct (try_map f xs) as [e|ys] eqn:Hm; [|done].
  destruct (try_map_fails f xs e Hm) as (x & Hin & Hfx). by exists e, x.
Qed.

Lemma sum_abs_zero (qs : list Q) :
  Forall (fun q => (q == 0)%Q) qs ->
  (fold_right Qplus 0%Q (map Qabs qs) == 0)%Q.
Proof.
  induction 1 as [|q qs Hq _ IH]; simpl; [reflexivity|].
  rewrite IH, Hq. reflexivity.
Qed.

Lemma zero_block_close m : all_zero m -> isclose (sum_abs m) 0%Q = true.
Proof.
  intros Hm. unfold isclose, sum_abs. apply Qle_bool_iff.
  rewrite (sum_abs_zero _ (proj2 (Forall_concat _ _) Hm)).
  unfold Qle. simpl. lia.
Qed.

Lemma reducer_keeps :
  reducer_keeps_annotations nat reducer.
Proof.
  intros p regions h out h' Halloc Hred l' Hl'.
  unfold reducer in Hred. inversion Hred; subst. simpl in Hl'.
  apply list_elem_of_In, filter_In in Hl' as [Hin _].
  apply list_elem_of_In in Hin. destruct (Halloc l' Hin) as [r Hr].
  by exists r, l', r.
Qed.

(** The program [milp] with a continuous index beyond the rows of [H]. *)
Definition milp_bad_rows : MPMILP_Program :=
  {| H := [[1%Q]; [2%Q]; [0%Q]]; binary_indices := [0; 1];
     cont_indices := [2; 5]; num_t := 1; num_x := 3; prog_Q := None |}.

(** A program without continuous variables. *)
Definition binary_only : MPMILP_Program :=
  {| H := [[1%Q]; [2%Q]]; binary_indices := [0; 1]; cont_indices := [];
     num_t := 1; num_x := 2; prog_Q := None |}.

(** A substitution that refuses a value other than 0 or 1. *)
Definition substitute_binary (p : MPMILP_Program) (fb : list Z)
  : result (list Z) :=
  if forallb (fun z => (z =? 0)%Z || (z =? 1)%Z) fb then inr fb
  else inl (Raised 5).

Definition run_checked (t : result (list MITreeNode)) :=
  solve_mpmiqp_enumeration nat (list Z) unit (list MITreeNode) Z
    cores (tree_of t) leafs_of substitute_binary solve pool_of seq_map reducer
    Q sum_abs isclose.

Definition three_leaves : list MITreeNode :=
  leaves_of [[0; 0]; [0; 2]; [1; 1]]%Z.

End Demo.

(** * The claims on the concrete instance *)

(** C1 on the instance: the entry [1/2] in the continuous row of [H], with
    one parameter, no [Q] and the reduction enabled. *)
Lemma flagged_when_disqualified_witness :
  Demo.run (inr Demo.two_leaves) 1%Z tt true (Demo.start Demo.milp_bilinear)
  = (inr {| program := Demo.milp_bilinear; critical_regions := [1; 2; 3; 4];
            is_overlapping := true |},
     annotated_state nat (list Z) Demo.cores (Demo.start Demo.milp_bilinear) 1%Z
       Demo.two_combinations Demo.two_solutions).
Proof.
  apply (flagged_when_disqualified nat (list Z) unit (list MITreeNode) Z
           Demo.cores (Demo.tree_of (inr Demo.two_leaves)) Demo.leafs_of
           Demo.substitute Demo.solve Demo.pool_of Demo.seq_map Demo.reducer
           Q Demo.sum_abs Demo.isclose
           Demo.seq_map_ordered (Demo.start Demo.milp_bilinear) 1%Z tt true
           Demo.two_leaves Demo.two_leaves Demo.two_combinations 1%Z
           Demo.two_solutions [[(1 # 2)%Q]]);
    try reflexivity.
  right. right. right. reflexivity.
Defined.

(** C2 on the instance: one parameter, no [Q], zero continuous row,
    reduction enabled; the reducer's list and flag come back. *)
Lemma reduced_when_eligible_witness :
  Demo.run (inr Demo.two_leaves) (-1)%Z tt true (Demo.start Demo.milp)
  = (inr {| program := Demo.milp; critical_regions := [1; 3];
            is_overlapping := false |},
     {| st_program := Demo.milp;
        st_heap :=
          st_heap nat
            (annotated_state nat (list Z) Demo.cores (Demo.start Demo.milp)
               (-1)%Z Demo.two_combinations Demo.two_solutions);
        st_trace :=
          st_trace nat
            (annotated_state nat (list Z) Demo.cores (Demo.start Demo.milp)
               (-1)%Z Demo.two_combinations Demo.two_solutions)
          ++ [EvReduce] |}).
Proof.
  apply (reduced_when_eligible nat (list Z) unit (list MITreeNode) Z
           Demo.cores (Demo.tree_of (inr Demo.two_leaves)) Demo.leafs_of
           Demo.substitute Demo.solve Demo.pool_of Demo.seq_map Demo.reducer
           Q Demo.sum_abs Demo.isclose Demo.seq_map_ordered Demo.zero_block_close (Demo.start Demo.milp) (-1)%Z tt
           Demo.two_leaves Demo.two_leaves Demo.two_combinations 4%Z
           Demo.two_solutions [[0%Q]]);
    try reflexivity.
  repeat constructor.
Defined.

(** C3 on the instance: the first region of the second sub-solution sits at
    position 2 of the flattened list and carries the second combination. *)
Lemma annotation_follows_dispatch_order_witness :
  exists l r',
    collected nat (list Z) (Demo.start Demo.milp) Demo.two_combinations
      Demo.two_solutions !! 2 = Some l
    /\ st_heap nat
         (annotated_state nat (list Z) Demo.cores (Demo.start Demo.milp) 1%Z
            Demo.two_combinations Demo.two_solutions) !! l = Some r'
    /\ body nat r' = 10
    /\ y_fixation nat r' = Some [1; 1]%Z
    /\ y_indices nat r' = Some [0; 1]
    /\ x_indices nat r' = Some [2].
Proof.
  destruct (annotation_follows_dispatch_order nat (list Z) unit
              (list MITreeNode) Z
              Demo.cores (Demo.tree_of (inr Demo.two_leaves)) Demo.leafs_of
              Demo.substitute Demo.solve Demo.pool_of Demo.seq_map Demo.reducer
              Q Demo.sum_abs Demo.isclose Demo.seq_map_ordered (Demo.start Demo.milp) 1%Z tt true
              Demo.two_leaves Demo.two_leaves Demo.two_combinations 1%Z
              Demo.two_solutions eq_refl eq_refl eq_refl eq_refl eq_refl)
    as (_ & _ & Hpos).
  destruct (Hpos 1 [1; 1]%Z eq_refl) as (problem & sol & _ & _ & Hsol & _ & Hreg).
  injection Hsol as <-.
  destruct (Hreg 0 (Demo.region 10) eq_refl) as (l & r' & Hl & Hr' & Hb & Hy).
  exists l, r'. split; [exact Hl|]. split; [exact Hr'|]. split; [exact Hb|exact Hy].
Defined.

(** C4 on the instance: no feasible combination and nothing that
    disqualifies the reduction; the list is empty and the flag is the one
    the reducer returns for the empty list. *)
Lemma no_feasible_combination_witness :
  exists sol sf,
    Demo.run (inr []) 1%Z tt true (Demo.start Demo.milp) = (inr sol, sf)
    /\ program sol = Demo.milp
    /\ critical_regions sol = []
    /\ (1 < 1 \/ is_Some (@None matrix) \/ true = false
        \/ Demo.isclose (Demo.sum_abs [[0%Q]]) 0%Q = false ->
        is_overlapping sol = true)
    /\ (1 <= 1 -> @None matrix = None -> true = true ->
        Demo.isclose (Demo.sum_abs [[0%Q]]) 0%Q = true ->
        fst (Demo.reducer Demo.milp [] [Demo.region 7])
        = inr ([], is_overlapping sol)).
Proof.
  apply (no_feasible_combination nat (list Z) unit (list MITreeNode) Z
           Demo.cores (Demo.tree_of (inr [])) Demo.leafs_of
           Demo.substitute Demo.solve Demo.pool_of Demo.seq_map Demo.reducer
           Q Demo.sum_abs Demo.isclose
           Demo.seq_map_ordered (Demo.start Demo.milp) 1%Z tt true
           [] 1%Z [[0%Q]]); try reflexivity.
  - exact Demo.reducer_keeps.
  - intros e. discriminate.
Defined.

(** C4 as stated fails: with no feasible combination and a program over two
    parameters, the returned solution has an empty region list and
    [is_overlapping = true]. *)
Lemma empty_result_flagged_counterexample :
  exists sol sf,
    Demo.run (inr []) 1%Z tt true (Demo.start Demo.milp_2d) = (inr sol, sf)
    /\ critical_regions sol = []
    /\ is_overlapping sol <> false.
Proof.
  eexists _, _. split; [vm_compute; reflexivity|].
  split; [reflexivity|discriminate].
Qed.

(** C5 on the instance: the two regions the reducer kept. *)
Lemma regions_carry_fixation_and_partition_witness :
  Forall (fun l =>
            exists r fb ys xs,
              st_heap nat
                (snd (Demo.run (inr Demo.two_leaves) (-1)%Z tt true
                        (Demo.start Demo.milp))) !! l = Some r
              /\ y_fixation nat r = Some fb
              /\ length fb = 2
              /\ y_indices nat r = Some ys /\ x_indices nat r = Some xs
              /\ partitions 3 ys xs)
    [1; 3].
Proof.
  apply (regions_carry_fixation_and_partition nat (list Z) unit
           (list MITreeNode) Z
           Demo.cores (Demo.tree_of (inr Demo.two_leaves)) Demo.leafs_of
           Demo.substitute Demo.solve Demo.pool_of Demo.seq_map Demo.reducer
           Q Demo.sum_abs Demo.isclose Demo.seq_map_ordered (Demo.start Demo.milp) (-1)%Z tt true
           {| program := Demo.milp; critical_regions := [1; 3];
              is_overlapping := false |}
           (snd (Demo.run (inr Demo.two_leaves) (-1)%Z tt true
                   (Demo.start Demo.milp)))).
  - intros tree leafs Htree Hleafs.
    injection Htree as <-. injection Hleafs as <-.
    repeat constructor.
  - unfold partitions. simpl.
    split; [|split]; repeat (apply Forall_cons; split); try apply Forall_nil;
      try lia.
    + left. left.
    + left. right. left.
    + right. left.
    + intros Hin. apply list_elem_of_singleton in Hin. discriminate.
    + intros Hin. apply list_elem_of_singleton in Hin. discriminate.
  - exact Demo.reducer_keeps.
  - vm_compute. reflexivity.
Defined.

(** C6 on the instance: a program whose attribute [Q] is all zero, with one
    parameter, a zero continuous row and the reduction enabled, still gets
    the flagged result. *)
Lemma quadratic_signal_is_attribute_presence_witness :
  Demo.run (inr Demo.two_leaves) 1%Z tt true (Demo.start Demo.miqp_zero)
  = (inr {| program := Demo.miqp_zero; critical_regions := [1; 2; 3; 4];
            is_overlapping := true |},
     annotated_state nat (list Z) Demo.cores (Demo.start Demo.miqp_zero) 1%Z
       Demo.two_combinations Demo.two_solutions).
Proof.
  destruct (quadratic_signal_is_attribute_presence nat (list Z) unit
              (list MITreeNode) Z
              Demo.cores (Demo.tree_of (inr Demo.two_leaves)) Demo.leafs_of
              Demo.substitute Demo.solve Demo.pool_of Demo.seq_map Demo.reducer
              Q Demo.sum_abs Demo.isclose Demo.seq_map_ordered (Demo.start Demo.miqp_zero) 1%Z tt true
              Demo.two_leaves Demo.two_leaves Demo.two_combinations 1%Z
              Demo.two_solutions [[0%Q]]
              eq_refl eq_refl eq_refl eq_refl eq_refl eq_refl)
    as (_ & Hpresent & _).
  exact (Hpresent [[0%Q]] eq_refl).
Defined.

(** C7 on the instance: under [-1] the pool is created for the four cores of
    the instance, and the run goes on with what the dispatch on that pool
    returns; a worker count of 0 is handed to the pool as it is, and the
    pool's refusal is the outcome of the run. *)
Lemma worker_count_resolved_once_witness :
  (EvPool Demo.cores
     ∈ run_events nat (Demo.start Demo.milp)
         (snd (Demo.run (inr Demo.two_leaves) (-1)%Z tt true
                 (Demo.start Demo.milp)))
   /\ Demo.run (inr Demo.two_leaves) (-1)%Z tt true (Demo.start Demo.milp)
      = classify nat Demo.reducer Q Demo.sum_abs Demo.isclose true
          (collected nat (list Z) (Demo.start Demo.milp) Demo.two_combinations
             Demo.two_solutions)
          (annotated_state nat (list Z) Demo.cores (Demo.start Demo.milp)
             (-1)%Z Demo.two_combinations Demo.two_solutions))
  /\ fst (Demo.run (inr Demo.two_leaves) 0%Z tt true (Demo.start Demo.milp))
     = inl (Raised 22).
Proof.
  split.
  - destruct (worker_count_resolved_once nat (list Z) unit (list MITreeNode) Z
                Demo.cores (Demo.tree_of (inr Demo.two_leaves)) Demo.leafs_of
                Demo.substitute Demo.solve Demo.pool_of Demo.seq_map
                Demo.reducer Q Demo.sum_abs Demo.isclose
                Demo.seq_map_ordered (Demo.start Demo.milp) (-1)%Z tt true)
      as [_ Hpool].
    destruct (Hpool Demo.two_leaves Demo.two_leaves Demo.two_combinations
                eq_refl eq_refl eq_refl) as (Hcreated & _ & _ & Hdispatch).
    split; [exact Hcreated|].
    exact (Hdispatch 4%Z Demo.two_solutions eq_refl eq_refl).
  - destruct (worker_count_resolved_once nat (list Z) unit (list MITreeNode) Z
                Demo.cores (Demo.tree_of (inr Demo.two_leaves)) Demo.leafs_of
                Demo.substitute Demo.solve Demo.pool_of Demo.seq_map
                Demo.reducer Q Demo.sum_abs Demo.isclose
                Demo.seq_map_ordered (Demo.start Demo.milp) 0%Z tt true)
      as [_ Hpool].
    destruct (Hpool Demo.two_leaves Demo.two_leaves Demo.two_combinations
                eq_refl eq_refl eq_refl) as (_ & Hrefused & _).
    exact (Hrefused (Raised 22) eq_refl).
Defined.

(** C8 on the instance: the sentinel against one worker. *)
Lemma result_independent_of_worker_count_witness :
  exists sf2,
    Demo.run (inr Demo.two_leaves) 1%Z tt true (Demo.start Demo.milp)
    = (inr {| program := Demo.milp; critical_regions := [1; 3];
              is_overlapping := false |}, sf2)
    /\ st_heap nat sf2
       = st_heap nat
           (snd (Demo.run (inr Demo.two_leaves) (-1)%Z tt true
                   (Demo.start Demo.milp)))
    /\ st_program nat sf2
       = st_program nat
           (snd (Demo.run (inr Demo.two_leaves) (-1)%Z tt true
                   (Demo.start Demo.milp))).
Proof.
  apply (result_independent_of_worker_count nat (list Z) unit
           (list MITreeNode) Z
           Demo.cores (Demo.tree_of (inr Demo.two_leaves)) Demo.leafs_of
           Demo.substitute Demo.solve Demo.pool_of Demo.seq_map Demo.reducer
           Q Demo.sum_abs Demo.isclose Demo.seq_map_ordered (Demo.start Demo.milp) (-1)%Z 1%Z tt true 1%Z).
  - reflexivity.
  - vm_compute. reflexivity.
Defined.

(** C9 on the instance: a tree whose construction raises, and a feasible
    combination whose sub-problem cannot be solved. *)
Lemma failures_propagate_witness :
  (exists sf,
     Demo.run (inl (Raised 3)) 1%Z tt true (Demo.start Demo.milp)
     = (inl (Raised 3), sf)
     /\ st_heap nat sf = [Demo.region 7])
  /\ (exists e y sf,
        y ∈ [[0; 0]; [2; 0]]%Z /\ Demo.solve y tt = inl e
        /\ Demo.run (inr (Demo.leaves_of [[0; 0]; [2; 0]]%Z)) 1%Z tt true
             (Demo.start Demo.milp) = (inl e, sf)
        /\ st_heap nat sf = [Demo.region 7]).
Proof.
  split.
  - destruct (failures_propagate nat (list Z) unit (list MITreeNode) Z
                Demo.cores (Demo.tree_of (inl (Raised 3))) Demo.leafs_of
                Demo.substitute Demo.solve Demo.pool_of Demo.seq_map
                Demo.reducer Q Demo.sum_abs Demo.isclose Demo.seq_map_ordered (Demo.start Demo.milp)
                1%Z tt true) as [Htree _].
    exact (Htree (Raised 3) eq_refl).
  - destruct (failures_propagate nat (list Z) unit (list MITreeNode) Z
                Demo.cores
                (Demo.tree_of (inr (Demo.leaves_of [[0; 0]; [2; 0]]%Z)))
                Demo.leafs_of Demo.substitute Demo.solve Demo.pool_of
                Demo.seq_map Demo.reducer Q Demo.sum_abs Demo.isclose Demo.seq_map_ordered
                (Demo.start Demo.milp) 1%Z tt true) as [_ Hsolve].
    apply (Hsolve (Demo.leaves_of [[0; 0]; [2; 0]]%Z)
             (Demo.leaves_of [[0; 0]; [2; 0]]%Z) [[0; 0]; [2; 0]]%Z 1%Z
             [2; 0]%Z (Raised 7)); try reflexivity.
    right. left.
Defined.

(** C10 on the instance. *)
Lemma program_never_mutated_witness :
  st_program nat
    (snd (Demo.run (inr Demo.two_leaves) 1%Z tt false (Demo.start Demo.milp)))
  = Demo.milp
  /\ (forall sol,
        fst (Demo.run (inr Demo.two_leaves) 1%Z tt false (Demo.start Demo.milp))
        = inr sol ->
        program sol = Demo.milp)
  /\ exists new,
       List.filter is_setattr
         (run_events nat (Demo.start Demo.milp)
            (snd (Demo.run (inr Demo.two_leaves) 1%Z tt false
                    (Demo.start Demo.milp))))
       = flat_map writes (seq 1 (length new))
       /\ (EvReduce ∉ run_events nat (Demo.start Demo.milp)
                        (snd (Demo.run (inr Demo.two_leaves) 1%Z tt false
                                (Demo.start Demo.milp))) ->
           st_heap nat
             (snd (Demo.run (inr Demo.two_leaves) 1%Z tt false
                     (Demo.start Demo.milp)))
           = [Demo.region 7] ++ new).
Proof.
  exact (program_never_mutated nat (list Z) unit (list MITreeNode) Z
           Demo.cores (Demo.tree_of (inr Demo.two_leaves)) Demo.leafs_of
           Demo.substitute Demo.solve Demo.pool_of Demo.seq_map Demo.reducer
           Q Demo.sum_abs Demo.isclose Demo.seq_map_ordered (Demo.start Demo.milp) 1%Z tt false).
Defined.

(** * The further properties on the concrete instance *)

(** X1 on the instance: the [IndexError] of a run on [milp_bad_rows]. *)
Lemma exceptions_have_an_origin_witness :
  Demo.tree_of (inr Demo.two_leaves) Demo.milp_bad_rows 0 = inl IndexError
  \/ (exists tree, Demo.tree_of (inr Demo.two_leaves) Demo.milp_bad_rows 0 = inr tree
                  /\ Demo.leafs_of tree = inl IndexError)
  \/ (exists tree leafs fb,
        Demo.tree_of (inr Demo.two_leaves) Demo.milp_bad_rows 0 = inr tree
        /\ Demo.leafs_of tree = inr leafs
        /\ fb ∈ map fixed_bins leafs
        /\ Demo.substitute Demo.milp_bad_rows fb = inl IndexError)
  \/ Demo.pool_of 1%Z = inl IndexError
  \/ (exists tree leafs fb x,
        Demo.tree_of (inr Demo.two_leaves) Demo.milp_bad_rows 0 = inr tree
        /\ Demo.leafs_of tree = inr leafs
        /\ fb ∈ map fixed_bins leafs
        /\ Demo.substitute Demo.milp_bad_rows fb = inr x
        /\ Demo.solve x tt = inl IndexError)
  \/ (IndexError = IndexError
      /\ Exists (fun i => 3 <= i) [2; 5])
  \/ (exists regions h,
        fst (Demo.reducer Demo.milp_bad_rows regions h) = inl IndexError).
Proof.
  apply (exceptions_have_an_origin nat (list Z) unit (list MITreeNode) Z
           Demo.cores (Demo.tree_of (inr Demo.two_leaves)) Demo.leafs_of
           Demo.substitute Demo.solve Demo.pool_of Demo.seq_map Demo.reducer
           Q Demo.sum_abs Demo.isclose Demo.seq_map_ordered (Demo.start Demo.milp_bad_rows) 1%Z tt true
           IndexError).
  vm_compute. reflexivity.
Defined.

(** X2 on the instance: the row selection fails although the caller
    disabled the reduction. *)
Lemma row_selection_out_of_range_witness :
  Demo.run (inr Demo.two_leaves) 1%Z tt false (Demo.start Demo.milp_bad_rows)
  = (inl IndexError,
     annotated_state nat (list Z) Demo.cores (Demo.start Demo.milp_bad_rows) 1%Z
       Demo.two_combinations Demo.two_solutions).
Proof.
  apply (row_selection_out_of_range nat (list Z) unit (list MITreeNode) Z
           Demo.cores (Demo.tree_of (inr Demo.two_leaves)) Demo.leafs_of
           Demo.substitute Demo.solve Demo.pool_of Demo.seq_map Demo.reducer
           Q Demo.sum_abs Demo.isclose Demo.seq_map_ordered (Demo.start Demo.milp_bad_rows) 1%Z tt false
           Demo.two_leaves Demo.two_leaves Demo.two_combinations 1%Z
           Demo.two_solutions);
    try reflexivity.
  apply Exists_cons_tl, Exists_cons_hd. simpl. lia.
Defined.

(** X3 on the instance: the second of three combinations is refused. *)
Lemma substitution_failure_stops_before_dispatch_witness :
  Demo.run_checked (inr Demo.three_leaves) 1%Z tt true (Demo.start Demo.milp)
  = (inl (Raised 5),
     {| st_program := Demo.milp; st_heap := [Demo.region 7];
        st_trace := [EvMITree] |}).
Proof.
  exact (substitution_failure_stops_before_dispatch nat (list Z) unit
           (list MITreeNode) Z
           Demo.cores (Demo.tree_of (inr Demo.three_leaves)) Demo.leafs_of
           Demo.substitute_binary Demo.solve Demo.pool_of Demo.seq_map
           Demo.reducer Q Demo.sum_abs Demo.isclose (Demo.start Demo.milp) 1%Z tt true
           Demo.three_leaves Demo.three_leaves [[0; 0]]%Z [0; 2]%Z [[1; 1]]%Z
           [[0; 0]]%Z (Raised 5) eq_refl eq_refl eq_refl eq_refl eq_refl).
Defined.

(** X4 on the instance: a worker count of 0. *)
Lemma pool_refusal_propagates_witness :
  Demo.run (inr Demo.two_leaves) 0%Z tt true (Demo.start Demo.milp)
  = (inl (Raised 22),
     {| st_program := Demo.milp; st_heap := [Demo.region 7];
        st_trace := [EvMITree; EvPool 0] |}).
Proof.
  exact (pool_refusal_propagates nat (list Z) unit (list MITreeNode) Z
           Demo.cores (Demo.tree_of (inr Demo.two_leaves)) Demo.leafs_of
           Demo.substitute Demo.solve Demo.pool_of Demo.seq_map Demo.reducer
           Q Demo.sum_abs Demo.isclose (Demo.start Demo.milp) 0%Z tt true
           Demo.two_leaves Demo.two_leaves Demo.two_combinations (Raised 22)
           eq_refl eq_refl eq_refl eq_refl).
Defined.

(** X5 on the instance: the reduced result on [milp]. *)
Lemma unflagged_result_comes_from_reducer_witness :
  true = true
  /\ 1 <= 1
  /\ @None matrix = None
  /\ (exists block,
        select_rows [[1%Q]; [2%Q]; [0%Q]] [2] = inr block
        /\ Demo.isclose (Demo.sum_abs block) 0%Q = true)
  /\ EvReduce ∈ run_events nat (Demo.start Demo.milp)
                  (snd (Demo.run (inr Demo.two_leaves) (-1)%Z tt true
                          (Demo.start Demo.milp)))
  /\ exists regions h,
       Demo.reducer Demo.milp regions h
       = (inr ([1; 3], false),
          st_heap nat (snd (Demo.run (inr Demo.two_leaves) (-1)%Z tt true
                              (Demo.start Demo.milp)))).
Proof.
  apply (unflagged_result_comes_from_reducer nat (list Z) unit
           (list MITreeNode) Z
           Demo.cores (Demo.tree_of (inr Demo.two_leaves)) Demo.leafs_of
           Demo.substitute Demo.solve Demo.pool_of Demo.seq_map Demo.reducer
           Q Demo.sum_abs Demo.isclose Demo.seq_map_ordered (Demo.start Demo.milp) (-1)%Z tt true
           {| program := Demo.milp; critical_regions := [1; 3];
              is_overlapping := false |}
           (snd (Demo.run (inr Demo.two_leaves) (-1)%Z tt true
                   (Demo.start Demo.milp)))).
  - vm_compute. reflexivity.
  - reflexivity.
Defined.

(** X6 on the instance: the caller disabled the reduction. *)
Lemma reducer_not_called_when_disqualified_witness :
  EvReduce ∉ run_events nat (Demo.start Demo.milp)
               (snd (Demo.run (inr Demo.two_leaves) 1%Z tt false
                       (Demo.start Demo.milp))).
Proof.
  apply (reducer_not_called_when_disqualified nat (list Z) unit
           (list MITreeNode) Z
           Demo.cores (Demo.tree_of (inr Demo.two_leaves)) Demo.leafs_of
           Demo.substitute Demo.solve Demo.pool_of Demo.seq_map Demo.reducer
           Q Demo.sum_abs Demo.isclose Demo.seq_map_ordered (Demo.start Demo.milp) 1%Z tt false).
  left. reflexivity.
Defined.

(** X9 on the instance: no continuous variable. *)
Lemma no_continuous_index_passes_bilinear_check_witness :
  Demo.run (inr Demo.two_leaves) 1%Z tt true (Demo.start Demo.binary_only)
  = (inr {| program := Demo.binary_only; critical_regions := [1; 3];
            is_overlapping := false |},
     {| st_program := Demo.binary_only;
        st_heap :=
          st_heap nat
            (annotated_state nat (list Z) Demo.cores
               (Demo.start Demo.binary_only) 1%Z Demo.two_combinations
               Demo.two_solutions);
        st_trace :=
          st_trace nat
            (annotated_state nat (list Z) Demo.cores
               (Demo.start Demo.binary_only) 1%Z Demo.two_combinations
               Demo.two_solutions)
          ++ [EvReduce] |}).
Proof.
  exact (no_continuous_index_passes_bilinear_check nat (list Z) unit
           (list MITreeNode) Z
           Demo.cores (Demo.tree_of (inr Demo.two_leaves)) Demo.leafs_of
           Demo.substitute Demo.solve Demo.pool_of Demo.seq_map Demo.reducer
           Q Demo.sum_abs Demo.isclose Demo.seq_map_ordered Demo.zero_block_close (Demo.start Demo.binary_only) 1%Z tt
           Demo.two_leaves Demo.two_leaves Demo.two_combinations 1%Z
           Demo.two_solutions eq_refl eq_refl eq_refl eq_refl eq_refl eq_refl
           (le_n 1) eq_refl).
Defined.

(** X10 on the instance: four regions, at the addresses 1 to 4. *)
Lemma flagged_result_lists_every_region_once_witness :
  exists sol sf,
    Demo.run (inr Demo.two_leaves) 1%Z tt false (Demo.start Demo.milp)
    = (inr sol, sf)
    /\ length (critical_regions sol)
       = list_sum (map length (map critical_regions Demo.two_solutions))
    /\ NoDup (critical_regions sol)
    /\ length (st_heap nat sf) = 1 + length (critical_regions sol)
    /\ forall l, l ∈ critical_regions sol -> 1 <= l < length (st_heap nat sf).
Proof.
  exact (flagged_result_lists_every_region_once nat (list Z) unit
           (list MITreeNode) Z
           Demo.cores (Demo.tree_of (inr Demo.two_leaves)) Demo.leafs_of
           Demo.substitute Demo.solve Demo.pool_of Demo.seq_map Demo.reducer
           Q Demo.sum_abs Demo.isclose Demo.seq_map_ordered (Demo.start Demo.milp) 1%Z tt false
           Demo.two_leaves Demo.two_leaves Demo.two_combinations 1%Z
           Demo.two_solutions [[0%Q]]
           eq_refl eq_refl eq_refl eq_refl eq_refl eq_refl eq_refl).
Defined.

(** X11 on the instance: [-1] against the four cores of the instance. *)
Lemma sentinel_is_the_explicit_core_count_witness :
  fst (Demo.run (inr Demo.two_leaves) (-1)%Z tt true (Demo.start Demo.milp))
  = fst (Demo.run (inr Demo.two_leaves) Demo.cores tt true (Demo.start Demo.milp))
  /\ st_heap nat
       (snd (Demo.run (inr Demo.two_leaves) (-1)%Z tt true (Demo.start Demo.milp)))
     = st_heap nat
         (snd (Demo.run (inr Demo.two_leaves) Demo.cores tt true
                 (Demo.start Demo.milp)))
  /\ st_program nat
       (snd (Demo.run (inr Demo.two_leaves) (-1)%Z tt true (Demo.start Demo.milp)))
     = st_program nat
         (snd (Demo.run (inr Demo.two_leaves) Demo.cores tt true
                 (Demo.start Demo.milp))).
Proof.
  exact (sentinel_is_the_explicit_core_count nat (list Z) unit
           (list MITreeNode) Z
           Demo.cores (Demo.tree_of (inr Demo.two_leaves)) Demo.leafs_of
           Demo.substitute Demo.solve Demo.pool_of Demo.seq_map Demo.reducer
           Q Demo.sum_abs Demo.isclose Demo.seq_map_ordered (Demo.start Demo.milp) tt true).
Defined.
